(** * loggen-json: a shallow embedding of scripts/loggen-json.py

    The script fabricates JSON log lines of an HTTP server: three start-up
    banners, then for ever an "incoming request" record followed by its
    "request completed" record.  Everything the script asks of the Python
    runtime (the random module, the clock, sleeping) goes through the
    [Runtime] interface below; the script's own functions are translated
    one by one and keep their names. *)

From Stdlib Require Import ZArith QArith Qround List String Ascii Bool Lia.
From Stdlib Require Import DecimalString HexadecimalString DecimalZ.
From Stdlib Require Import Permutation.
Import ListNotations.

Set Warnings "-register-all".

Open Scope string_scope.
Open Scope Z_scope.

(** ** Python values used by the script *)

(** [int(x)] on a float truncates towards zero. *)
Definition py_int (x : Q) : Z := Z.quot (Qnum x) (Z.pos (Qden x)).

(** [x < y] on floats, as a boolean. *)
Definition Qlt_bool (x y : Q) : bool := negb (Qle_bool y x).

(** [str(n)] and [f"{n}"] for an int. *)
Definition str_of_int (n : Z) : string :=
  DecimalString.NilZero.string_of_int (Z.to_int n).

(** [f"{n:x}"] for an int. *)
Definition hex_of_int (n : Z) : string :=
  HexadecimalString.NilZero.string_of_int (Z.to_hex_int n).

(** [len(s)] for a str. *)
Definition len (s : string) : Z := Z.of_nat (String.length s).

(** [s[k]] for a str and an index [0 <= k < len(s)]; Python raises
    IndexError past the end, which the callers below rule out by their
    guards ([None] here). *)
Definition str_index (s : string) (k : Z) : option ascii :=
  if (0 <=? k) then String.get (Z.to_nat k) s else None.

(** Characters of a JSON number: the digits, the signs, the point and the
    exponent letters. *)
Definition is_digit (c : ascii) : bool :=
  let n := N_of_ascii c in ((48 <=? n) && (n <=? 57))%N.

Definition is_float_mark (c : ascii) : bool :=
  let n := N_of_ascii c in ((n =? 46) || (n =? 101) || (n =? 69))%N.

Definition is_num_start (c : ascii) : bool :=
  is_digit c || (N_of_ascii c =? 45)%N.

Definition is_num_char (c : ascii) : bool :=
  is_num_start c || is_float_mark c || (N_of_ascii c =? 43)%N.

(** The characters [json.dumps] writes are printable ASCII. *)
Definition printable (c : ascii) : bool :=
  let n := N_of_ascii c in ((32 <=? n) && (n <=? 126))%N.

(** What may follow a number: the end of the text or a character that no
    number contains. *)
Definition delimited (rest : string) : bool :=
  match rest with
  | "" => true
  | String c _ => negb (is_num_char c)
  end.

Fixpoint str_forall (P : ascii -> bool) (s : string) : bool :=
  match s with
  | "" => true
  | String c s' => P c && str_forall P s'
  end.

Fixpoint str_exists (P : ascii -> bool) (s : string) : bool :=
  match s with
  | "" => false
  | String c s' => P c || str_exists P s'
  end.

(** Python floats are an abstract carrier of finite floats: each denotes one
    rational ([float_val]); [float_lit q] is the float a literal of decimal
    value [q] denotes, [float_mul] is [*], [float_repr] is [repr] and
    [float_of_str] is [float()] on a str.  Rounding is left to the carrier:
    a literal need not denote its decimal value exactly, only keep its
    order and sign.  [repr] writes a finite float as a JSON number with a
    fraction or an exponent, and [float()] reads it back to the same
    float. *)
Class FloatModel := {
  float : Type;
  float_val : float -> Q;
  float_lit : Q -> float;
  float_mul : float -> float -> float;
  float_repr : float -> string;
  float_of_str : string -> option float;

  float_lit_nonneg : forall q, (0 <= q)%Q -> (0 <= float_val (float_lit q))%Q;
  float_lit_mono : forall p q, (p <= q)%Q ->
    (float_val (float_lit p) <= float_val (float_lit q))%Q;
  float_repr_chars : forall f, str_forall is_num_char (float_repr f) = true;
  float_repr_start : forall f,
    match float_repr f with
    | String c _ => is_num_start c = true
    | "" => False
    end;
  float_repr_mark : forall f, str_exists is_float_mark (float_repr f) = true;
  float_of_str_repr : forall f, float_of_str (float_repr f) = Some f
}.

(** The services of the interpreter the script calls.  [world] is the state
    of the random generator and of the clock. *)
Class Runtime `{FloatModel} := {
  world : Type;
  (** [random.random()] *)
  random_random : world -> float * world;
  (** [random.uniform(a, b)] *)
  random_uniform : float -> float -> world -> float * world;
  (** the index draw behind [random.choice(seq)], below [len(seq)] *)
  random_randbelow : nat -> world -> nat * world;
  (** [random.randint(a, b)] *)
  random_randint : Z -> Z -> world -> Z * world;
  (** [random.seed()] *)
  random_seed : world -> world;
  (** [time.time()] *)
  time_time : world -> float * world;
  (** [time.sleep(d)] *)
  time_sleep : float -> world -> world;

  random_random_range : forall g,
    (0 <= float_val (fst (random_random g)) /\
     float_val (fst (random_random g)) < 1)%Q;
  random_uniform_range : forall a b g,
    (float_val a <= float_val b)%Q ->
    (float_val a <= float_val (fst (random_uniform a b g)) /\
     float_val (fst (random_uniform a b g)) <= float_val b)%Q;
  random_randbelow_range : forall n g, (0 < n)%nat ->
    (fst (random_randbelow n g) < n)%nat;
  random_randint_range : forall a b g, a <= b ->
    a <= fst (random_randint a b g) <= b
}.

(** ** JSON values and records *)

Section Script.

Context `{RT : Runtime}.

(** The values the script puts in a record: ints, floats, strs and nested
    dicts.  A dict literal is the list of its items in insertion order. *)
Inductive json : Type :=
| JInt (z : Z)
| JFloat (f : float)
| JStr (s : string)
| JObj (items : list (string * json)).

Definition record : Type := list (string * json).

(** [d[k]] / [k in d] for a dict given by its items. *)
Fixpoint lookup (k : string) (d : record) : option json :=
  match d with
  | [] => None
  | (k', v) :: d' => if String.eqb k k' then Some v else lookup k d'
  end.

(** ** The catalogs *)

Definition ROUTES : list (string * Z) :=
  [ ("/", 200);
    ("/css/output.css", 200);
    ("/ts/app.js", 200);
    ("/ts/gameModesRouter.js", 404);
    ("/ts/localGame.js", 200);
    ("/ts/login-register-form.js", 200);
    ("/ts/authenticate.js", 200);
    ("/ts/userProfile.js", 200);
    ("/ts/gameUtils/drawBoard.js", 200);
    ("/ts/gameUtils/websocketManager.js", 200);
    ("/ts/gameUtils/inputHandler.js", 200);
    ("/ts/gameUtils/gameRenderer.js", 200);
    ("/ts/validateInput.js", 200);
    ("/game/multiplayer", 200);
    ("/game/online", 200);
    ("/game/online-tournament", 200);
    ("/game/local-tournament", 200);
    ("/game/local", 200);
    ("/friends", 404);
    ("/profile", 200);
    ("/login", 200);
    ("/register", 200);
    ("/assets/default-avatar.svg", 200);
    ("/ws/localGame", 200) ].

(** [random.choice(seq)]: the element at the drawn index; IndexError
    ([None]) on an empty sequence. *)
Definition random_choice {A : Type} (seq : list A) (g : world)
  : option (A * world) :=
  match seq with
  | [] => None
  | _ =>
      let (k, g') := random_randbelow (List.length seq) g in
      match nth_error seq k with
      | Some x => Some (x, g')
      | None => None
      end
  end.

(** The module-level [AUTH_ROUTES = [...]]: the list is built once, when
    the module is loaded, and the login entry's status is drawn there. *)
Definition mk_AUTH_ROUTES (g : world)
  : option (list (string * string * Z) * world) :=
  match random_choice [200; 406] g with
  | Some (login_status, g') =>
      Some ([ ("POST", "/api/auth/refresh", 401);
              ("POST", "/api/auth/login", login_status);
              ("POST", "/api/auth/register", 200) ], g')
  | None => None
  end.

(** ** Request identifiers *)

Definition alphabet : string := "0123456789abcdefghijklmnopqrstuvwxyz".

(** The value [req_id_gen] yields when [itertools.count(1)] is at [i]. *)
Definition req_id (i : Z) : string :=
  if i <=? 10 then "req-" ++ hex_of_int (i - 1)
  else if (i - 1) <? len alphabet then
    match str_index alphabet (i - 1) with
    | Some c => "req-" ++ String c ""
    | None => "req-"
    end
  else "req-" ++ str_of_int i.

(** Reading a decimal str back as an int, [int(s)]. *)
Definition parse_dec (s : string) : option Z :=
  option_map Z.of_int (DecimalString.NilZero.int_of_string s).

(** The first 36 values of the counter. *)
Definition first36 : list Z := map Z.of_nat (seq 1 36).

(** [next(reqid_iter)]: the generator's state is the counter's next value. *)
Definition reqid_next (i : Z) : string * Z := (req_id i, i + 1).

(** ** json.dumps(obj, separators=(",", ":"))

    The encoder of Python's json module with its defaults
    ([ensure_ascii=True]): a str is written between double quotes, the
    backslash, the double quote and the control characters 8, 9, 10, 12 and
    13 by their two-character escapes, any other character outside the
    printable range 32..126 as a backslash, u and four lower-case hex
    digits.  A str is modelled by a Rocq string whose
    characters are the code points 0..255. *)

Definition hex_digit (n : N) : ascii :=
  match n with
  | 0 => "0" | 1 => "1" | 2 => "2" | 3 => "3" | 4 => "4" | 5 => "5"
  | 6 => "6" | 7 => "7" | 8 => "8" | 9 => "9" | 10 => "a" | 11 => "b"
  | 12 => "c" | 13 => "d" | 14 => "e" | _ => "f"
  end%N%char.

Definition backslash : ascii := ascii_of_N 92.
Definition dquote : ascii := ascii_of_N 34.

(** The format u{0:04x} behind the backslash. *)
Definition escape_u (n : N) : string :=
  String backslash (String "u"
    (String (hex_digit (N.modulo (N.div n 4096) 16))
    (String (hex_digit (N.modulo (N.div n 256) 16))
    (String (hex_digit (N.modulo (N.div n 16) 16))
    (String (hex_digit (N.modulo n 16)) ""))))).


Definition escape_char (c : ascii) : string :=
  let n := N_of_ascii c in
  if (n =? 92)%N then String backslash (String backslash "")
  else if (n =? 34)%N then String backslash (String dquote "")
  else if (n =? 8)%N then String backslash "b"
  else if (n =? 12)%N then String backslash "f"
  else if (n =? 10)%N then String backslash "n"
  else if (n =? 13)%N then String backslash "r"
  else if (n =? 9)%N then String backslash "t"
  else if ((32 <=? n) && (n <=? 126))%N then String c ""
  else escape_u n.

Fixpoint escape_str (s : string) : string :=
  match s with
  | "" => ""
  | String c s' => escape_char c ++ escape_str s'
  end.

Definition encode_str (s : string) : string :=
  String dquote (escape_str s ++ String dquote "").

Fixpoint json_dumps (v : json) : string :=
  match v with
  | JInt z => str_of_int z
  | JFloat f => float_repr f
  | JStr s => encode_str s
  | JObj items =>
      "{" ++
      (fix items_dumps (l : list (string * json)) : string :=
         match l with
         | [] => ""
         | (k, x) :: l' =>
             encode_str k ++ ":" ++ json_dumps x ++
             match l' with
             | [] => ""
             | _ => "," ++ items_dumps l'
             end
         end) items
      ++ "}"
  end.

(** The items of a dict between its braces, by themselves. *)
Fixpoint dumps_items (l : list (string * json)) : string :=
  match l with
  | [] => ""
  | (k, x) :: l' =>
      encode_str k ++ ":" ++ json_dumps x ++
      match l' with
      | [] => ""
      | _ => "," ++ dumps_items l'
      end
  end.

(** A value a Python program can hold: the keys of a dict are distinct. *)
Fixpoint wf_json (v : json) : Prop :=
  match v with
  | JObj items =>
      NoDup (map fst items) /\
      (fix all (l : list (string * json)) : Prop :=
         match l with
         | [] => True
         | (_, x) :: l' => wf_json x /\ all l'
         end) items
  | _ => True
  end.

(** Induction on values, with the hypothesis for every value of a dict. *)
Fixpoint json_induction (P : json -> Prop)
    (Hnum : forall z, P (JInt z)) (Hfloat : forall f, P (JFloat f))
    (Hstr : forall s, P (JStr s))
    (Hobj : forall items,
        Forall (fun kx => P (snd kx)) items -> P (JObj items))
    (v : json) : P v :=
  match v with
  | JInt z => Hnum z
  | JFloat f => Hfloat f
  | JStr s => Hstr s
  | JObj items =>
      Hobj items
        ((fix go (l : list (string * json))
            : Forall (fun kx => P (snd kx)) l :=
            match l with
            | [] => Forall_nil _
            | (k, x) :: l' =>
                Forall_cons (k, x)
                  (json_induction P Hnum Hfloat Hstr Hobj x) (go l')
            end) items)
  end.

(** ** The script's functions *)

(** [hostname = socket.gethostname()] and [pid = os.getpid()]. *)
Variable hostname : string.
Variable pid : Z.

Definition now_ms (g : world) : Z * world :=
  let (t, g') := time_time g in
  (py_int (float_val (float_mul t (float_lit 1000))), g').

(** The open file is the list of the strings written to it so far; its
    content is their concatenation.  [fh.flush()] changes nothing here. *)
Definition newline : string := String (ascii_of_N 10) "".

Definition log_json (line : record) (fh : list string) : list string :=
  fh ++ [json_dumps (JObj line) ++ newline].

Definition host_msgs : list string :=
  [ "Server listening at https://[::1]:3000";
    "Server listening at https://127.0.0.1:3000";
    "ft_transcendence running at https://[::1]:3000" ].

(** The generator reads the clock once, at its first [next], and then
    yields one dict per message. *)
Definition mk_server_listening_entries (g : world) : list record * world :=
  let (t, g') := now_ms g in
  (map (fun m =>
          [ ("level", JInt 30);
            ("time", JInt t);
            ("pid", JInt pid);
            ("hostname", JStr hostname);
            ("msg", JStr m) ]) host_msgs,
   g').

(** The state the loop threads: the runtime, the module-level [reqid_iter]
    (the next value of its counter) and the open file. *)
Record state : Type := {
  rng : world;
  reqid_iter : Z;
  fh : list string
}.

Definition mk_incoming_request (method url host : string) (remote_port : Z)
    (i : Z) (g : world) : (record * string * Z) * Z * world :=
  let (rid, i') := reqid_next i in
  let (t0, g') := now_ms g in
  let entry :=
    [ ("level", JInt 30);
      ("time", JInt t0);
      ("pid", JInt pid);
      ("hostname", JStr hostname);
      ("reqId", JStr rid);
      ("req", JObj [ ("method", JStr method);
                     ("url", JStr url);
                     ("host", JStr host);
                     ("remoteAddress", JStr "::1");
                     ("remotePort", JInt remote_port) ]);
      ("msg", JStr "incoming request") ] in
  ((entry, rid, t0), i', g').

Definition mk_request_completed (rid : string) (status_code started_ms : Z)
    (g : world) : record * world :=
  let (rt, g') :=
    if status_code =? 200
    then random_uniform (float_lit (8 # 10)) (float_lit 40) g
    else random_uniform (float_lit (8 # 10)) (float_lit 300) g in
  ([ ("level", JInt 30);
     ("time", JInt (started_ms + py_int (float_val rt)));
     ("pid", JInt pid);
     ("hostname", JStr hostname);
     ("reqId", JStr rid);
     ("res", JObj [ ("statusCode", JInt status_code) ]);
     ("responseTime", JFloat rt);
     ("msg", JStr "request completed") ],
   g').

(** The float [mk_request_completed] draws for a status code, by itself. *)
Definition elapsed (status_code : Z) (g : world) : float :=
  fst (if status_code =? 200
       then random_uniform (float_lit (8 # 10)) (float_lit 40) g
       else random_uniform (float_lit (8 # 10)) (float_lit 300) g).

(** Lines 150-154 of [main]: pick between a normal GET and an auth call. *)
Definition pick_route (AUTH_ROUTES : list (string * string * Z)) (g : world)
  : option ((string * string * Z) * world) :=
  let (u, g1) := random_random g in
  if Qlt_bool (float_val u) (float_val (float_lit (8 # 10))) then
    match random_choice ROUTES g1 with
    | Some ((url, status), g2) => Some (("GET", url, status), g2)
    | None => None
    end
  else
    match random_choice AUTH_ROUTES g1 with
    | Some ((method, url, status), g2) => Some ((method, url, status), g2)
    | None => None
    end.

(** One turn of [while True]; it also returns the two records it wrote.
    [None] stands for an uncaught exception. *)
Definition iteration (AUTH_ROUTES : list (string * string * Z)) (st : state)
  : option ((record * record) * state) :=
  match pick_route AUTH_ROUTES (rng st) with
  | None => None
  | Some ((method, url, status), g1) =>
      let (remote_port, g2) := random_randint 53000 53350 g1 in
      let '((inc, rid, t0), i', g3) :=
        mk_incoming_request method url "localhost:3000" remote_port
          (reqid_iter st) g2 in
      let fh1 := log_json inc (fh st) in
      let (d1, g4) := random_uniform (float_lit (1 # 100)) (float_lit (5 # 100)) g3 in
      let g5 := time_sleep d1 g4 in
      let (done, g6) := mk_request_completed rid status t0 g5 in
      let fh2 := log_json done fh1 in
      let (d2, g7) := random_uniform (float_lit (2 # 100)) (float_lit (15 # 100)) g6 in
      let g8 := time_sleep d2 g7 in
      Some ((inc, done), {| rng := g8; reqid_iter := i'; fh := fh2 |})
  end.

(** The first [n] turns of the steady-state loop. *)
Fixpoint steady (AUTH_ROUTES : list (string * string * Z)) (n : nat)
    (st : state) : option (list (record * record) * state) :=
  match n with
  | O => Some ([], st)
  | S n' =>
      match iteration AUTH_ROUTES st with
      | None => None
      | Some (p, st1) =>
          match steady AUTH_ROUTES n' st1 with
          | None => None
          | Some (ps, st2) => Some (p :: ps, st2)
          end
      end
  end.

(** [main] up to the loop: seed, open the file for appending ([fh0] is what
    it already holds) and write the banners. *)
Definition startup (g : world) (fh0 : list string) : list record * state :=
  let g1 := random_seed g in
  let (es, g2) := mk_server_listening_entries g1 in
  (es, {| rng := g2;
          reqid_iter := 1;
          fh := fold_left (fun f e => log_json e f) es fh0 |}).

(** The program from the moment the module is loaded: build the auth
    catalog, run [main]'s start-up and the first [n] turns of the loop. *)
Definition program (n : nat) (g : world) (fh0 : list string)
  : option (list (string * string * Z) * list record
            * list (record * record) * state) :=
  match mk_AUTH_ROUTES g with
  | None => None
  | Some (AUTH_ROUTES, g1) =>
      let (banners, st0) := startup g1 fh0 in
      match steady AUTH_ROUTES n st0 with
      | None => None
      | Some (trace, st) => Some (AUTH_ROUTES, banners, trace, st)
      end
  end.

End Script.

(** ** The target resolver *)

(** What [pathlib] reports of one entry of the scanned directory: its name,
    the answer of [is_file()] and the [st_mtime] of [stat()], each [None]
    when the call raises. *)
Record dirent : Type := {
  d_name : string;
  d_is_file : option bool;
  d_mtime : option Q
}.

Definition logs_dir : string := "/logs".

(** [str(p)] for an entry [p] of [Path(logs_dir).glob("*")]. *)
Definition path_str (p : dirent) : string := logs_dir ++ "/" ++ d_name p.

Definition lower_char (c : ascii) : ascii :=
  let n := N_of_ascii c in
  if ((65 <=? n) && (n <=? 90))%N then ascii_of_N (n + 32) else c.

(** [s.lower()], on ASCII names. *)
Fixpoint lower (s : string) : string :=
  match s with
  | "" => ""
  | String c s' => String (lower_char c) (lower s')
  end.

(** [sub in s] *)
Fixpoint contains (sub s : string) : bool :=
  String.prefix sub s ||
  match s with
  | "" => false
  | String _ s' => contains sub s'
  end.

(** The list comprehension of line 18; [None] when an [is_file()] raises. *)
Fixpoint jsonish_of (paths : list dirent) : option (list dirent) :=
  match paths with
  | [] => Some []
  | p :: ps =>
      match d_is_file p with
      | None => None
      | Some b =>
          let keep :=
            b && (contains "json" (lower (d_name p))
                  || contains "log" (lower (d_name p))) in
          match jsonish_of ps with
          | None => None
          | Some r => Some (if keep then p :: r else r)
          end
      end
  end.

(** The keys of [sort(key=lambda p: p.stat().st_mtime)], computed for every
    element before anything moves; [None] when a [stat()] raises. *)
Fixpoint keyed (l : list dirent) : option (list (Q * dirent)) :=
  match l with
  | [] => Some []
  | p :: ps =>
      match d_mtime p, keyed ps with
      | Some t, Some r => Some ((t, p) :: r)
      | _, _ => None
      end
  end.

(** [list.sort(reverse=True)] is stable: of two entries with the same key
    the one that came first stays first. *)
Fixpoint insert_desc (x : Q * dirent) (l : list (Q * dirent))
  : list (Q * dirent) :=
  match l with
  | [] => [x]
  | y :: l' =>
      if Qlt_bool (fst x) (fst y) then y :: insert_desc x l' else x :: l
  end.

Definition sort_desc (l : list (Q * dirent)) : list (Q * dirent) :=
  fold_right insert_desc [] l.

(** The head of a list is its greatest key. *)
Definition head_max (l : list (Q * dirent)) : Prop :=
  match l with
  | [] => True
  | x :: _ => forall z, In z l -> (fst z <= fst x)%Q
  end.

Definition default_log_file : string := "/logs/ft_transcendence.jsonl".

(** The body of the [try]; [None] is "fell through or raised", which the
    [except Exception: pass] turns into the fallback alike. *)
Definition scan_logs_dir (glob : option (list dirent)) : option string :=
  match glob with
  | None => None
  | Some paths =>
      let single :=
        match paths with
        | [p] => d_is_file p
        | _ => Some false
        end in
      match single with
      | None => None
      | Some true =>
          match paths with
          | p :: _ => Some (path_str p)
          | [] => None
          end
      | Some false =>
          match jsonish_of paths with
          | None => None
          | Some jsonish =>
              match jsonish with
              | [] => None
              | _ =>
                  match keyed jsonish with
                  | None => None
                  | Some ks =>
                      match sort_desc ks with
                      | (_, p) :: _ => Some (path_str p)
                      | [] => None
                      end
                  end
              end
          end
      end
  end.

(** [env] is [os.environ.get("LOG_FILE")]; [glob] lists the entries of
    [/logs], or is [None] when listing raises. *)
Definition detect_log_file (env : option string)
    (glob : option (list dirent)) : string :=
  match env with
  | Some (String c e) => String c e
  | _ =>
      match scan_logs_dir glob with
      | Some path => path
      | None => default_log_file
      end
  end.

(** The resolver in the words of its description: an entry is a candidate
    when it is a file whose lower-cased name contains json or log. *)
Definition is_candidate (p : dirent) : bool :=
  match d_is_file p with
  | Some true =>
      contains "json" (lower (d_name p)) || contains "log" (lower (d_name p))
  | _ => false
  end.

Definition candidates (paths : list dirent) : list dirent :=
  filter is_candidate paths.

(** A regular file and a sub-directory, as entries. *)
Definition file_entry (name : string) (mtime : Q) : dirent :=
  {| d_name := name; d_is_file := Some true; d_mtime := Some mtime |}.

Definition dir_entry (name : string) (mtime : Q) : dirent :=
  {| d_name := name; d_is_file := Some false; d_mtime := Some mtime |}.

(** ** Reading a line back: json.loads

    A decoder for the JSON the script writes: objects, strings, ints and
    floats.  With [lenient = true] it skips white space around tokens as
    Python's decoder does; with [lenient = false] it accepts none, so that
    it reads compact text only. *)

Section Decoder.

Context `{FM : FloatModel}.

Definition is_ws (c : ascii) : bool :=
  let n := N_of_ascii c in ((n =? 32) || (n =? 9) || (n =? 10) || (n =? 13))%N.

Fixpoint skip_ws (s : string) : string :=
  match s with
  | "" => ""
  | String c s' => if is_ws c then skip_ws s' else s
  end.

Definition ws (lenient : bool) (s : string) : string :=
  if lenient then skip_ws s else s.

Definition hex_val (c : ascii) : option N :=
  let n := N_of_ascii c in
  if ((48 <=? n) && (n <=? 57))%N then Some (n - 48)%N
  else if ((97 <=? n) && (n <=? 102))%N then Some (n - 87)%N
  else if ((65 <=? n) && (n <=? 70))%N then Some (n - 55)%N
  else None.

(** The character a two-character escape stands for. *)
Definition unescape (e : ascii) : option ascii :=
  let n := N_of_ascii e in
  if (n =? 34)%N then Some dquote
  else if (n =? 92)%N then Some backslash
  else if (n =? 47)%N then Some (ascii_of_N 47)
  else if (n =? 98)%N then Some (ascii_of_N 8)
  else if (n =? 102)%N then Some (ascii_of_N 12)
  else if (n =? 110)%N then Some (ascii_of_N 10)
  else if (n =? 114)%N then Some (ascii_of_N 13)
  else if (n =? 116)%N then Some (ascii_of_N 9)
  else None.

Definition cons_fst (c : ascii) (r : option (string * string))
  : option (string * string) :=
  match r with
  | Some (a, b) => Some (String c a, b)
  | None => None
  end.

(** The body of a string, after its opening quote: the decoded str and
    what follows the closing quote.  Control characters must be escaped; an
    escape for a code point above 255 is outside the modelled strs. *)
Fixpoint scan_string (s : string) : option (string * string) :=
  match s with
  | "" => None
  | String c rest =>
      if (N_of_ascii c =? 34)%N then Some ("", rest)
      else if (N_of_ascii c =? 92)%N then
        match rest with
        | "" => None
        | String e rest1 =>
            if (N_of_ascii e =? 117)%N then
              match rest1 with
              | String h1 (String h2 (String h3 (String h4 rest2))) =>
                  match hex_val h1, hex_val h2, hex_val h3, hex_val h4 with
                  | Some a, Some b, Some c', Some d =>
                      let n := (a * 4096 + b * 256 + c' * 16 + d)%N in
                      if (n <? 256)%N
                      then cons_fst (ascii_of_N n) (scan_string rest2)
                      else None
                  | _, _, _, _ => None
                  end
              | _ => None
              end
            else
              match unescape e with
              | Some ch => cons_fst ch (scan_string rest1)
              | None => None
              end
        end
      else if (N_of_ascii c <? 32)%N then None
      else cons_fst c (scan_string rest)
  end.

(** The longest prefix made of number characters. *)
Fixpoint span_num (s : string) : string * string :=
  match s with
  | "" => ("", "")
  | String c s' =>
      if is_num_char c
      then let (a, b) := span_num s' in (String c a, b)
      else ("", s)
  end.

Definition parse_number (s : string) : option (json * string) :=
  let (tok, rest) := span_num s in
  if str_exists is_float_mark tok then
    match float_of_str tok with
    | Some f => Some (JFloat f, rest)
    | None => None
    end
  else
    match DecimalString.NilZero.int_of_string tok with
    | Some d => Some (JInt (Z.of_int d), rest)
    | None => None
    end.

(** [d[k] = v] on a dict given by its items. *)
Fixpoint dict_set (k : string) (v : json) (d : list (string * json))
  : list (string * json) :=
  match d with
  | [] => [(k, v)]
  | (k', v') :: d' =>
      if String.eqb k k' then (k', v) :: d' else (k', v') :: dict_set k v d'
  end.

Fixpoint parse_value (lenient : bool) (fuel : nat) (s : string)
  : option (json * string) :=
  match fuel with
  | O => None
  | S fuel' =>
      match ws lenient s with
      | "" => None
      | String c rest =>
          if (N_of_ascii c =? 34)%N then
            match scan_string rest with
            | Some (str, rest') => Some (JStr str, rest')
            | None => None
            end
          else if (N_of_ascii c =? 123)%N then
            match ws lenient rest with
            | "" => None
            | String c1 rest1 =>
                if (N_of_ascii c1 =? 125)%N then Some (JObj [], rest1)
                else parse_members lenient fuel' [] rest
            end
          else if is_num_start c then parse_number (String c rest)
          else None
      end
  end

(** The members of an object from a key on, added to the dict [acc]. *)
with parse_members (lenient : bool) (fuel : nat)
    (acc : list (string * json)) (s : string) : option (json * string) :=
  match fuel with
  | O => None
  | S fuel' =>
      match ws lenient s with
      | "" => None
      | String c rest =>
          if (N_of_ascii c =? 34)%N then
            match scan_string rest with
            | None => None
            | Some (k, rest1) =>
                match ws lenient rest1 with
                | "" => None
                | String c1 rest2 =>
                    if (N_of_ascii c1 =? 58)%N then
                      match parse_value lenient fuel' rest2 with
                      | None => None
                      | Some (v, rest3) =>
                          let acc' := dict_set k v acc in
                          match ws lenient rest3 with
                          | "" => None
                          | String c2 rest4 =>
                              if (N_of_ascii c2 =? 44)%N
                              then parse_members lenient fuel' acc' rest4
                              else if (N_of_ascii c2 =? 125)%N
                              then Some (JObj acc', rest4)
                              else None
                          end
                      end
                    else None
                end
            end
          else None
      end
  end.

(** The fuel that reading a value back takes. *)
Fixpoint need (v : json) : nat :=
  match v with
  | JObj items =>
      S ((fix go (l : list (string * json)) : nat :=
            match l with
            | [] => O
            | (_, x) :: l' => S (Nat.max (need x) (go l'))
            end) items)
  | _ => 1
  end.

Fixpoint need_items (l : list (string * json)) : nat :=
  match l with
  | [] => O
  | (_, x) :: l' => S (Nat.max (need x) (need_items l'))
  end.

(** A value that the decoder reads back from what the encoder wrote,
    whatever follows it. *)
Definition reads_back (v : json) : Prop :=
  wf_json v ->
  forall lenient fuel rest,
    (need v <= fuel)%nat -> delimited rest = true ->
    parse_value lenient fuel (json_dumps v ++ rest) = Some (v, rest).

(** [json.loads(s)]: one value, then nothing but what [ws] skips. *)
Definition json_loads (lenient : bool) (s : string) : option json :=
  match parse_value lenient (S (String.length s)) s with
  | Some (v, rest) =>
      match ws lenient rest with
      | "" => Some v
      | String _ _ => None
      end
  | None => None
  end.

End Decoder.

(** ** Reading fields off a record *)

Section Fields.

Context `{FM : FloatModel}.

(** The line [log_json] writes for a record. *)
Definition line_of (r : record) : string := json_dumps (JObj r) ++ newline.

Definition get_int (k : string) (r : record) : option Z :=
  match lookup k r with
  | Some (JInt z) => Some z
  | _ => None
  end.

Definition get_str (k : string) (r : record) : option string :=
  match lookup k r with
  | Some (JStr s) => Some s
  | _ => None
  end.

Definition get_float (k : string) (r : record) : option float :=
  match lookup k r with
  | Some (JFloat f) => Some f
  | _ => None
  end.

Definition get_obj (k : string) (r : record) : option record :=
  match lookup k r with
  | Some (JObj d) => Some d
  | _ => None
  end.

(** [r["req"]["url"]], [r["req"]["method"]] and [r["res"]["statusCode"]]. *)
Definition req_url (r : record) : option string :=
  match get_obj "req" r with
  | Some d => get_str "url" d
  | None => None
  end.

Definition req_method (r : record) : option string :=
  match get_obj "req" r with
  | Some d => get_str "method" d
  | None => None
  end.

Definition res_status (r : record) : option Z :=
  match get_obj "res" r with
  | Some d => get_int "statusCode" d
  | None => None
  end.

Definition keys (r : record) : list string := map fst r.

(** The records of a list of request/response pairs, in the order they
    are written. *)
Definition records_of (trace : list (record * record)) : list record :=
  flat_map (fun p => [fst p; snd p]) trace.

(** The lines a list of request/response pairs leaves in the file. *)
Definition lines_of (trace : list (record * record)) : list string :=
  flat_map (fun p => [line_of (fst p); line_of (snd p)]) trace.

End Fields.

(** ** The catalog and the banners a run starts with *)

Section RunShapes.

Context `{FM : FloatModel}.
Variable hostname : string.
Variable pid : Z.

(** [AUTH_ROUTES] once the login status is drawn. *)
Definition auth_catalog (login_status : Z) : list (string * string * Z) :=
  [ ("POST", "/api/auth/refresh", 401);
    ("POST", "/api/auth/login", login_status);
    ("POST", "/api/auth/register", 200) ].

(** The dicts [mk_server_listening_entries] yields when the clock reads
    [t]. *)
Definition banners_at (t : Z) : list record :=
  map (fun m =>
         [ ("level", JInt 30);
           ("time", JInt t);
           ("pid", JInt pid);
           ("hostname", JStr hostname);
           ("msg", JStr m) ]) host_msgs.

(** The fields every record starts from. *)
Definition common_fields (r : record) : Prop :=
  get_int "level" r = Some 30 /\
  get_int "pid" r = Some pid /\
  get_str "hostname" r = Some hostname.

(** Lower-case letters and digits. *)
Definition is_lower_alnum (c : ascii) : bool :=
  let n := N_of_ascii c in
  (((48 <=? n) && (n <=? 57)) || ((97 <=? n) && (n <=? 122)))%N.

End RunShapes.

(** ** A small runtime to run the model on

    Floats with one decimal (a float is its number of tenths), a linear
    congruential generator and a clock that sleeping advances.  It is one
    instance of the two interfaces; the script's functions evaluate on
    it. *)

Module Tenths.

Definition val (n : N) : Q := Z.of_N n # 10.

Definition lit (q : Q) : N := Z.to_N (Qfloor (q * 10)).

Definition mul (a b : N) : N := (a * b / 10)%N.

Definition digit_char (k : N) : ascii := ascii_of_N (48 + k).

Definition repr (n : N) : string :=
  DecimalString.NilZero.string_of_uint (N.to_uint (n / 10))
  ++ String "." (String (digit_char (n mod 10)) "").

Fixpoint split_dot (s : string) : option (string * string) :=
  match s with
  | "" => None
  | String c s' =>
      if (N_of_ascii c =? 46)%N then Some ("", s')
      else match split_dot s' with
           | Some (a, b) => Some (String c a, b)
           | None => None
           end
  end.

Definition of_str (s : string) : option N :=
  match split_dot s with
  | Some (ip, String d "") =>
      match DecimalString.NilZero.uint_of_string ip with
      | Some u =>
          if is_digit d
          then Some (N.of_uint u * 10 + (N_of_ascii d - 48))%N
          else None
      | None => None
      end
  | _ => None
  end.

Record lcg : Type := { seed : N; clock : N }.

Definition next (w : lcg) : lcg :=
  {| seed := (seed w * 1103515245 + 12345) mod 2147483648; clock := clock w |}.

Definition uniform (a b : N) (w : lcg) : N * lcg :=
  ((a + (b - a) * (seed w mod 11) / 10)%N, next w).

Definition randint (a b : Z) (w : lcg) : Z * lcg :=
  (a + Z.of_N (seed w) mod (b - a + 1), next w).

(** A generator state and a clock to start from. *)
Definition w0 : lcg := {| seed := 3; clock := 17000 |}.

End Tenths.

(** * Properties *)

(** ** Strings and digits *)

Lemma str_forall_app (P : ascii -> bool) (a b : string) :
  str_forall P (a ++ b) = str_forall P a && str_forall P b.
Proof.
  induction a as [|c a IH]; simpl; [reflexivity|].
  now rewrite IH, andb_assoc.
Qed.

Lemma str_exists_app (P : ascii -> bool) (a b : string) :
  str_exists P (a ++ b) = str_exists P a || str_exists P b.
Proof.
  induction a as [|c a IH]; simpl; [reflexivity|].
  now rewrite IH, orb_assoc.
Qed.

Lemma str_forall_impl (P R : ascii -> bool) (s : string) :
  (forall c, P c = true -> R c = true) ->
  str_forall P s = true -> str_forall R s = true.
Proof.
  intros HPR. induction s as [|c s IH]; simpl; [reflexivity|].
  rewrite !andb_true_iff. intros [Hc Hs]. split; auto.
Qed.

Lemma uint_digits_nilempty (d : Decimal.uint) :
  str_forall is_digit (DecimalString.NilEmpty.string_of_uint d) = true.
Proof. induction d; simpl; auto. Qed.

Lemma uint_digits (d : Decimal.uint) :
  str_forall is_digit (DecimalString.NilZero.string_of_uint d) = true.
Proof. destruct d; try apply (uint_digits_nilempty (_ _)); reflexivity. Qed.

Lemma is_digit_num_char (c : ascii) : is_digit c = true -> is_num_char c = true.
Proof. unfold is_num_char, is_num_start. now intros ->. Qed.

Lemma is_digit_not_mark (c : ascii) :
  is_digit c = true -> is_float_mark c = false.
Proof.
  unfold is_digit, is_float_mark. rewrite andb_true_iff, !N.leb_le.
  intros [H1 H2]. rewrite !orb_false_iff, !N.eqb_neq. lia.
Qed.

Lemma N_to_uint_nonnil (n : N) : N.to_uint n <> Decimal.Nil.
Proof.
  destruct n; simpl; [discriminate|]. apply DecimalPos.Unsigned.to_uint_nonnil.
Qed.

(** ** The small runtime meets the interfaces *)

Lemma split_dot_digits (a b : string) :
  str_forall is_digit a = true ->
  Tenths.split_dot (a ++ String "." b) = Some (a, b).
Proof.
  induction a as [|c a IH]; simpl; [reflexivity|].
  rewrite andb_true_iff. intros [Hc Ha].
  replace (N_of_ascii c =? 46)%N with false.
  - now rewrite IH.
  - symmetry. apply N.eqb_neq. unfold is_digit in Hc.
    rewrite andb_true_iff, !N.leb_le in Hc. lia.
Qed.

Lemma digit_char_is_digit (k : N) :
  (k < 10)%N -> is_digit (Tenths.digit_char k) = true.
Proof.
  intros Hk. unfold is_digit, Tenths.digit_char.
  rewrite N_ascii_embedding by lia.
  rewrite andb_true_iff, !N.leb_le. lia.
Qed.

Lemma tenths_of_str_repr (n : N) : Tenths.of_str (Tenths.repr n) = Some n.
Proof.
  unfold Tenths.of_str, Tenths.repr.
  rewrite split_dot_digits by apply uint_digits.
  rewrite DecimalString.NilZero.usu by apply N_to_uint_nonnil.
  assert (Hk : (n mod 10 < 10)%N) by (apply N.mod_lt; discriminate).
  rewrite digit_char_is_digit by exact Hk.
  rewrite DecimalN.Unsigned.of_to. unfold Tenths.digit_char.
  rewrite N_ascii_embedding by lia. f_equal.
  pose proof (N.div_mod n 10 ltac:(discriminate)) as H.
  revert H. generalize (n / 10)%N (n mod 10)%N. intros; lia.
Qed.

Lemma tenths_repr_chars (n : N) :
  str_forall is_num_char (Tenths.repr n) = true.
Proof.
  unfold Tenths.repr. rewrite str_forall_app, andb_true_iff. split.
  - apply (str_forall_impl is_digit); [apply is_digit_num_char|].
    apply uint_digits.
  - simpl. rewrite is_digit_num_char; [reflexivity|].
    apply digit_char_is_digit, N.mod_lt. discriminate.
Qed.

Lemma tenths_repr_start (n : N) :
  match Tenths.repr n with
  | String c _ => is_num_start c = true
  | "" => False
  end.
Proof.
  unfold Tenths.repr.
  pose proof (uint_digits (N.to_uint (n / 10))) as Hd.
  destruct (DecimalString.NilZero.string_of_uint (N.to_uint (n / 10)))
    as [|c s] eqn:E.
  - exfalso. revert E. generalize (N_to_uint_nonnil (n / 10)).
    destruct (N.to_uint (n / 10)); simpl; congruence.
  - simpl in *. apply andb_true_iff in Hd. unfold is_num_start.
    now rewrite (proj1 Hd).
Qed.

Lemma tenths_repr_mark (n : N) :
  str_exists is_float_mark (Tenths.repr n) = true.
Proof.
  unfold Tenths.repr. rewrite str_exists_app. simpl.
  now rewrite orb_true_r.
Qed.

Lemma tenths_lit_mono (p q : Q) :
  (p <= q)%Q -> (Tenths.val (Tenths.lit p) <= Tenths.val (Tenths.lit q))%Q.
Proof.
  intros Hpq.
  assert (Qfloor (p * 10) <= Qfloor (q * 10))%Z.
  { apply Qfloor_resp_le. apply Qmult_le_compat_r; [exact Hpq|].
    unfold Qle; simpl; lia. }
  unfold Tenths.val, Tenths.lit, Qle. cbn [Qnum Qden]. lia.
Qed.

Lemma tenths_lit_nonneg (q : Q) :
  (0 <= q)%Q -> (0 <= Tenths.val (Tenths.lit q))%Q.
Proof. intros _. unfold Tenths.val, Qle. cbn [Qnum Qden]. lia. Qed.

#[export] Instance tenths_float : FloatModel := {
  float := N;
  float_val := Tenths.val;
  float_lit := Tenths.lit;
  float_mul := Tenths.mul;
  float_repr := Tenths.repr;
  float_of_str := Tenths.of_str;
  float_lit_nonneg := tenths_lit_nonneg;
  float_lit_mono := tenths_lit_mono;
  float_repr_chars := tenths_repr_chars;
  float_repr_start := tenths_repr_start;
  float_repr_mark := tenths_repr_mark;
  float_of_str_repr := tenths_of_str_repr
}.

Lemma tenths_uniform_range (a b : N) (w : Tenths.lcg) :
  (Tenths.val a <= Tenths.val b)%Q ->
  (Tenths.val a <= Tenths.val (fst (Tenths.uniform a b w)) /\
   Tenths.val (fst (Tenths.uniform a b w)) <= Tenths.val b)%Q.
Proof.
  unfold Tenths.val, Tenths.uniform, Qle. simpl. intros Hab.
  assert (Hm : (Tenths.seed w mod 11 < 11)%N) by (apply N.mod_lt; discriminate).
  assert (Hd : ((b - a) * (Tenths.seed w mod 11) / 10 <= b - a)%N).
  { apply N.Div0.div_le_upper_bound. nia. }
  revert Hd. generalize ((b - a) * (Tenths.seed w mod 11) / 10)%N.
  intros; lia.
Qed.

Lemma tenths_randint_range (a b : Z) (w : Tenths.lcg) :
  a <= b -> a <= fst (Tenths.randint a b w) <= b.
Proof.
  intros Hab. unfold Tenths.randint. simpl.
  pose proof (Z.mod_pos_bound (Z.of_N (Tenths.seed w)) (b - a + 1)). lia.
Qed.

Lemma tenths_random_range (w : Tenths.lcg) :
  (0 <= Tenths.val (Tenths.seed w mod 10)%N /\
   Tenths.val (Tenths.seed w mod 10)%N < 1)%Q.
Proof.
  assert (H : (Tenths.seed w mod 10 < 10)%N) by (apply N.mod_lt; discriminate).
  revert H. generalize (Tenths.seed w mod 10)%N. intros k Hk.
  unfold Tenths.val, Qle, Qlt. cbn [Qnum Qden]. lia.
Qed.

Lemma tenths_randbelow_range (n : nat) (w : Tenths.lcg) :
  (0 < n)%nat -> (N.to_nat (Tenths.seed w mod N.of_nat n) < n)%nat.
Proof.
  intros Hn. pose proof (N.mod_lt (Tenths.seed w) (N.of_nat n)). lia.
Qed.

#[export] Instance tenths_runtime : @Runtime tenths_float := {
  world := Tenths.lcg;
  random_random := fun w => ((Tenths.seed w mod 10)%N, Tenths.next w);
  random_uniform := Tenths.uniform;
  random_randbelow := fun n w =>
    (N.to_nat (Tenths.seed w mod N.of_nat n), Tenths.next w);
  random_randint := Tenths.randint;
  random_seed := fun w => w;
  time_time := fun w => (Tenths.clock w, w);
  time_sleep := fun d w =>
    {| Tenths.seed := Tenths.seed w; Tenths.clock := (Tenths.clock w + d)%N |};
  random_random_range := tenths_random_range;
  random_uniform_range := tenths_uniform_range;
  random_randbelow_range := tenths_randbelow_range;
  random_randint_range := tenths_randint_range
}.

(** A state of the loop and an authentication catalog on that runtime. *)
Definition demo_state : state :=
  {| rng := Tenths.w0; reqid_iter := 1; fh := [] |}.

Definition demo_auth : list (string * string * Z) :=
  [ ("POST", "/api/auth/refresh", 401);
    ("POST", "/api/auth/login", 406);
    ("POST", "/api/auth/register", 200) ].

(** ** The loop *)

Section Loop.

Context `{RT : Runtime}.
Variable hostname : string.
Variable pid : Z.

Lemma py_int_nonneg (x : Q) : (0 <= x)%Q -> 0 <= py_int x.
Proof.
  unfold Qle, py_int. simpl. intros Hx.
  apply Z.quot_pos; lia.
Qed.

(** On a float that is not negative [int] is the floor. *)
Lemma py_int_floor (x : Q) : (0 <= x)%Q -> py_int x = Qfloor x.
Proof.
  unfold Qle, py_int. destruct x as [n d]. simpl. intros Hx.
  apply Z.quot_div_nonneg; lia.
Qed.

Lemma random_choice_some {A : Type} (seq : list A) (g : world) :
  seq <> [] ->
  exists x,
    random_choice seq g = Some (x, snd (random_randbelow (List.length seq) g)) /\
    nth_error seq (fst (random_randbelow (List.length seq) g)) = Some x.
Proof.
  intros Hne. unfold random_choice.
  destruct seq as [|a seq']; [congruence|].
  pose proof (random_randbelow_range (List.length (a :: seq')) g) as Hk.
  destruct (random_randbelow (List.length (a :: seq')) g) as [k g'] eqn:E.
  simpl fst in *. simpl snd.
  destruct (nth_error (a :: seq') k) as [x|] eqn:En.
  - exists x. split; reflexivity.
  - apply nth_error_None in En. simpl in Hk, En. lia.
Qed.

Lemma random_choice_in {A : Type} (seq : list A) (g g' : world) (x : A) :
  random_choice seq g = Some (x, g') -> In x seq.
Proof.
  unfold random_choice. destruct seq as [|a seq']; [discriminate|].
  destruct (random_randbelow _ g) as [k g1].
  destruct (nth_error (a :: seq') k) as [y|] eqn:En; [|discriminate].
  intros [= <- _]. eapply nth_error_In; eassumption.
Qed.

(** The bounds of the two elapsed-time ranges are in order. *)
Lemma lit_08_le (hi : Q) :
  (8 # 10 <= hi)%Q ->
  (float_val (float_lit (8 # 10)) <= float_val (float_lit hi))%Q.
Proof. apply float_lit_mono. Qed.

Lemma lit_08_nonneg : (0 <= float_val (float_lit (8 # 10)))%Q.
Proof. apply float_lit_nonneg. unfold Qle; simpl; lia. Qed.

Lemma elapsed_lower (status_code : Z) (g : world) :
  (float_val (float_lit (8 # 10)) <= float_val (elapsed status_code g))%Q.
Proof.
  unfold elapsed. destruct (status_code =? 200);
    apply random_uniform_range, lit_08_le; unfold Qle; simpl; lia.
Qed.

Lemma elapsed_nonneg (status_code : Z) (g : world) :
  (0 <= float_val (elapsed status_code g))%Q.
Proof.
  eapply Qle_trans; [apply lit_08_nonneg | apply elapsed_lower].
Qed.

Lemma mk_request_completed_eq (rid : string) (status_code started_ms : Z)
    (g : world) :
  fst (mk_request_completed hostname pid rid status_code started_ms g) =
  [ ("level", JInt 30);
    ("time", JInt (started_ms + py_int (float_val (elapsed status_code g))));
    ("pid", JInt pid);
    ("hostname", JStr hostname);
    ("reqId", JStr rid);
    ("res", JObj [ ("statusCode", JInt status_code) ]);
    ("responseTime", JFloat (elapsed status_code g));
    ("msg", JStr "request completed") ].
Proof.
  unfold mk_request_completed, elapsed.
  destruct (status_code =? 200);
    destruct (random_uniform _ _ g) as [rt g']; reflexivity.
Qed.

Lemma pick_route_total (AUTH_ROUTES : list (string * string * Z)) (g : world) :
  AUTH_ROUTES <> [] -> exists r g', pick_route AUTH_ROUTES g = Some (r, g').
Proof.
  intros Hne. unfold pick_route.
  destruct (random_random g) as [u g1].
  destruct (Qlt_bool _ _).
  - destruct (random_choice_some ROUTES g1) as [[url status] [-> _]];
      [discriminate|]. eauto.
  - destruct (random_choice_some AUTH_ROUTES g1 Hne) as [[[m url] status] [-> _]].
    eauto.
Qed.

Lemma pick_route_in (AUTH_ROUTES : list (string * string * Z)) (g g' : world)
    (method url : string) (status : Z) :
  pick_route AUTH_ROUTES g = Some ((method, url, status), g') ->
  method = "GET" /\ In (url, status) ROUTES \/
  In (method, url, status) AUTH_ROUTES.
Proof.
  unfold pick_route. destruct (random_random g) as [u g1].
  destruct (Qlt_bool _ _).
  - destruct (random_choice ROUTES g1) as [[[url' status'] g2]|] eqn:E;
      [|discriminate].
    intros [= <- <- <- <-]. left. split; [reflexivity|].
    eapply random_choice_in; eassumption.
  - destruct (random_choice AUTH_ROUTES g1) as [[[[m' url'] status'] g2]|] eqn:E;
      [|discriminate].
    intros [= <- <- <- <-]. right. eapply random_choice_in; eassumption.
Qed.

(** What one turn of the loop does, whenever it completes. *)
Lemma iteration_inv (AUTH_ROUTES : list (string * string * Z)) (st st' : state)
    (p : record * record) :
  iteration hostname pid AUTH_ROUTES st = Some (p, st') ->
  exists method url status remote_port t0 g,
    (method = "GET" /\ In (url, status) ROUTES \/
     In (method, url, status) AUTH_ROUTES) /\
    53000 <= remote_port <= 53350 /\
    fst p =
      [ ("level", JInt 30);
        ("time", JInt t0);
        ("pid", JInt pid);
        ("hostname", JStr hostname);
        ("reqId", JStr (req_id (reqid_iter st)));
        ("req", JObj [ ("method", JStr method);
                       ("url", JStr url);
                       ("host", JStr "localhost:3000");
                       ("remoteAddress", JStr "::1");
                       ("remotePort", JInt remote_port) ]);
        ("msg", JStr "incoming request") ] /\
    snd p =
      fst (mk_request_completed hostname pid (req_id (reqid_iter st))
             status t0 g) /\
    reqid_iter st' = reqid_iter st + 1 /\
    fh st' = (fh st ++ [line_of (fst p); line_of (snd p)])%list.
Proof.
  unfold iteration.
  destruct (pick_route AUTH_ROUTES (rng st)) as [[[[method url] status] g1]|]
    eqn:Epick; [|discriminate].
  pose proof (random_randint_range 53000 53350 g1 ltac:(lia)) as Hport.
  destruct (random_randint 53000 53350 g1) as [remote_port g2].
  unfold mk_incoming_request, reqid_next.
  destruct (now_ms g2) as [t0 g3].
  destruct (random_uniform _ _ g3) as [d1 g4].
  destruct (mk_request_completed hostname pid _ status t0 (time_sleep d1 g4))
    as [done g6] eqn:Edone.
  destruct (random_uniform _ _ g6) as [d2 g7].
  intros [= <- <-]. simpl fst in *. simpl snd.
  exists method, url, status, remote_port, t0, (time_sleep d1 g4).
  rewrite Edone. simpl.
  repeat split; try tauto; try lia.
  - apply (pick_route_in _ _ _ _ _ _ Epick).
  - unfold log_json, line_of. now rewrite <- app_assoc.
Qed.

Lemma iteration_total (AUTH_ROUTES : list (string * string * Z)) (st : state) :
  AUTH_ROUTES <> [] ->
  exists p st', iteration hostname pid AUTH_ROUTES st = Some (p, st').
Proof.
  intros Hne. unfold iteration.
  destruct (pick_route_total AUTH_ROUTES (rng st) Hne)
    as [[[method url] status] [g1 ->]].
  destruct (random_randint 53000 53350 g1) as [remote_port g2].
  destruct (mk_incoming_request _ _ _ _ _ _ _ _) as [[[[inc rid] t0] i'] g3].
  destruct (random_uniform _ _ g3) as [d1 g4].
  destruct (mk_request_completed _ _ _ _ _ _) as [done g6].
  destruct (random_uniform _ _ g6) as [d2 g7].
  eauto.
Qed.

End Loop.

(** ** Start-up and runs of the loop *)

Section Runs.

Context `{RT : Runtime}.
Variable hostname : string.
Variable pid : Z.

Lemma log_json_fold (es : list record) (fh0 : list string) :
  fold_left (fun f e => log_json e f) es fh0 = (fh0 ++ map line_of es)%list.
Proof.
  revert fh0. induction es as [|e es IH]; intros fh0; simpl.
  - now rewrite app_nil_r.
  - rewrite IH. unfold log_json, line_of. now rewrite <- app_assoc.
Qed.

Lemma steady_total (AUTH_ROUTES : list (string * string * Z)) (n : nat)
    (st : state) :
  AUTH_ROUTES <> [] ->
  exists trace st', steady hostname pid AUTH_ROUTES n st = Some (trace, st').
Proof.
  intros Hne. revert st. induction n as [|n IH]; intros st; simpl.
  - eauto.
  - destruct (iteration_total hostname pid AUTH_ROUTES st Hne) as [p [st1 ->]].
    destruct (IH st1) as [ps [st2 ->]]. eauto.
Qed.

Lemma steady_inv (AUTH_ROUTES : list (string * string * Z)) (n : nat)
    (st st' : state) (trace : list (record * record)) :
  steady hostname pid AUTH_ROUTES n st = Some (trace, st') ->
  List.length trace = n /\
  fh st' = (fh st ++ lines_of trace)%list /\
  Forall (fun p => exists s1 s2,
            iteration hostname pid AUTH_ROUTES s1 = Some (p, s2)) trace.
Proof.
  revert st st' trace. induction n as [|n IH]; intros st st' trace; simpl.
  - intros [= <- <-]. simpl. rewrite app_nil_r. auto.
  - destruct (iteration hostname pid AUTH_ROUTES st) as [[p st1]|] eqn:Eit;
      [|discriminate].
    destruct (steady hostname pid AUTH_ROUTES n st1) as [[ps st2]|] eqn:Est;
      [|discriminate].
    intros [= <- <-]. destruct (IH _ _ _ Est) as (Hlen & Hfh & Hall).
    destruct (iteration_inv _ _ _ _ _ _ Eit)
      as (m & u & s & port & t0 & g & _ & _ & _ & _ & _ & Hfh1).
    repeat split.
    + simpl. now rewrite Hlen.
    + rewrite Hfh, Hfh1. simpl. now rewrite <- app_assoc.
    + constructor; [eauto | exact Hall].
Qed.

Lemma mk_AUTH_ROUTES_spec (g : world) :
  exists login_status,
    (login_status = 200 \/ login_status = 406) /\
    mk_AUTH_ROUTES g =
      Some ([ ("POST", "/api/auth/refresh", 401);
              ("POST", "/api/auth/login", login_status);
              ("POST", "/api/auth/register", 200) ],
            snd (random_randbelow 2 g)).
Proof.
  unfold mk_AUTH_ROUTES.
  destruct (random_choice_some [200; 406] g ltac:(discriminate)) as [x [Hc Hn]].
  rewrite Hc. exists x. split; [|reflexivity].
  apply nth_error_In in Hn. simpl in Hn. intuition.
Qed.

(** The program always runs: it draws the login status, writes the
    banners after what the file held and then takes its turns. *)
Lemma program_runs (n : nat) (g : world) (fh0 : list string) :
  exists login_status t trace st st0,
    (login_status = 200 \/ login_status = 406) /\
    program hostname pid n g fh0 =
      Some (auth_catalog login_status, banners_at hostname pid t, trace, st) /\
    reqid_iter st0 = 1 /\
    fh st0 = (fh0 ++ map line_of (banners_at hostname pid t))%list /\
    steady hostname pid (auth_catalog login_status) n st0 = Some (trace, st).
Proof.
  destruct (mk_AUTH_ROUTES_spec g) as [s0 [Hs0 Hmk]].
  unfold program. rewrite Hmk. fold (auth_catalog s0).
  unfold startup, mk_server_listening_entries.
  destruct (now_ms (random_seed (snd (random_randbelow 2 g)))) as [t g2].
  fold (banners_at hostname pid t).
  match goal with
  | |- context [steady _ _ _ _ ?s] => set (st0 := s)
  end.
  destruct (steady_total (auth_catalog s0) n st0 ltac:(discriminate))
    as [trace [st Hst]].
  rewrite Hst. exists s0, t, trace, st, st0.
  split; [exact Hs0|]. split; [reflexivity|]. split; [reflexivity|].
  split; [|exact Hst]. unfold st0. cbn [fh]. apply log_json_fold.
Qed.

End Runs.

(** ** What the loop guarantees *)

Section LoopGuarantees.

Context `{RT : Runtime}.
Variable hostname : string.
Variable pid : Z.

(** C1.  Every turn of the steady-state loop completes and writes two
    records: both carry the same request identifier, the completed record's
    time is at least the incoming record's time, and the line of the
    incoming record is appended to the file just before the line of the
    completed record. *)
Theorem iteration_correlated (AUTH_ROUTES : list (string * string * Z))
    (st : state) :
  AUTH_ROUTES <> [] ->
  exists inc done st' rid t0 t1,
    iteration hostname pid AUTH_ROUTES st = Some ((inc, done), st') /\
    get_str "reqId" inc = Some rid /\
    get_str "reqId" done = Some rid /\
    get_int "time" inc = Some t0 /\
    get_int "time" done = Some t1 /\
    t0 <= t1 /\
    fh st' = (fh st ++ [line_of inc; line_of done])%list.
Proof.
  intros Hne.
  destruct (iteration_total hostname pid AUTH_ROUTES st Hne)
    as [[inc done] [st' Hit]].
  destruct (iteration_inv _ _ _ _ _ _ Hit)
    as (m & u & s & port & t0 & g & _ & _ & Hinc & Hdone & _ & Hfh).
  simpl in *. rewrite mk_request_completed_eq in Hdone.
  exists inc, done, st', (req_id (reqid_iter st)), t0,
    (t0 + py_int (float_val (elapsed s g))).
  subst inc done. repeat split; try reflexivity; try assumption.
  pose proof (py_int_nonneg _ (elapsed_nonneg s g)). lia.
Qed.

(** C3, as amended.  The completed record's time is the incoming record's
    time plus the elapsed time truncated to an integer: it never exceeds
    the incoming time plus [responseTime] and falls short of it by less
    than one. *)
Theorem completed_time_truncated (AUTH_ROUTES : list (string * string * Z))
    (st : state) :
  AUTH_ROUTES <> [] ->
  exists inc done st' t0 t1 rt,
    iteration hostname pid AUTH_ROUTES st = Some ((inc, done), st') /\
    get_int "time" inc = Some t0 /\
    get_int "time" done = Some t1 /\
    get_float "responseTime" done = Some rt /\
    t1 = t0 + py_int (float_val rt) /\
    (inject_Z t1 <= inject_Z t0 + float_val rt)%Q /\
    (inject_Z t0 + float_val rt < inject_Z t1 + 1)%Q.
Proof.
  intros Hne.
  destruct (iteration_total hostname pid AUTH_ROUTES st Hne)
    as [[inc done] [st' Hit]].
  destruct (iteration_inv _ _ _ _ _ _ Hit)
    as (m & u & s & port & t0 & g & _ & _ & Hinc & Hdone & _ & _).
  simpl in *. rewrite mk_request_completed_eq in Hdone.
  exists inc, done, st', t0, (t0 + py_int (float_val (elapsed s g))),
    (elapsed s g).
  subst inc done. repeat split; try reflexivity; try assumption.
  - rewrite py_int_floor by apply elapsed_nonneg.
    rewrite inject_Z_plus. apply Qplus_le_r, Qfloor_le.
  - rewrite py_int_floor by apply elapsed_nonneg.
    rewrite inject_Z_plus, <- Qplus_assoc. apply Qplus_lt_r.
    rewrite <- (inject_Z_plus _ 1). apply Qlt_floor.
Qed.

(** C4.  A completed record built from status code [s] and start time [t0]
    holds the float [rt] drawn by [random.uniform(0.8, 40.0)] when [s] is
    200 and by [random.uniform(0.8, 300.0)] otherwise, within those bounds;
    its [time] is [t0 + int(rt)] and its [responseTime] is [rt] itself. *)
Theorem mk_request_completed_fields (rid : string) (s t0 : Z) (g : world) :
  exists rt,
    get_int "time" (fst (mk_request_completed hostname pid rid s t0 g))
      = Some (t0 + py_int (float_val rt)) /\
    get_float "responseTime"
      (fst (mk_request_completed hostname pid rid s t0 g)) = Some rt /\
    (s = 200 /\
     rt = fst (random_uniform (float_lit (8 # 10)) (float_lit 40) g) /\
     (float_val (float_lit (8 # 10)) <= float_val rt)%Q /\
     (float_val rt <= float_val (float_lit 40))%Q
     \/
     s <> 200 /\
     rt = fst (random_uniform (float_lit (8 # 10)) (float_lit 300) g) /\
     (float_val (float_lit (8 # 10)) <= float_val rt)%Q /\
     (float_val rt <= float_val (float_lit 300))%Q).
Proof.
  exists (elapsed s g). rewrite mk_request_completed_eq.
  repeat split; try reflexivity.
  unfold elapsed. destruct (Z.eqb_spec s 200) as [Hs|Hs]; [left|right];
    (split; [exact Hs|]); (split; [reflexivity|]);
    apply random_uniform_range, lit_08_le; unfold Qle; simpl; lia.
Qed.

(** C10.  Any status code other than 200, the other 2xx codes included,
    draws the elapsed time with [random.uniform(0.8, 300.0)]: the fast
    range belongs to the literal 200 alone. *)
Theorem only_200_is_fast (rid : string) (s t0 : Z) (g : world) :
  s <> 200 ->
  get_float "responseTime"
    (fst (mk_request_completed hostname pid rid s t0 g))
    = Some (fst (random_uniform (float_lit (8 # 10)) (float_lit 300) g)) /\
  (float_val (float_lit (8 # 10)) <=
   float_val (fst (random_uniform (float_lit (8 # 10)) (float_lit 300) g)))%Q /\
  (float_val (fst (random_uniform (float_lit (8 # 10)) (float_lit 300) g))
   <= float_val (float_lit 300))%Q /\
  get_float "responseTime"
    (fst (mk_request_completed hostname pid rid 200 t0 g))
    = Some (fst (random_uniform (float_lit (8 # 10)) (float_lit 40) g)).
Proof.
  intros Hs. rewrite !mk_request_completed_eq. unfold elapsed.
  destruct (Z.eqb_spec s 200) as [Heq|_]; [contradiction|].
  assert (Hr : (float_val (float_lit (8 # 10)) <= float_val (float_lit 300))%Q)
    by (apply lit_08_le; unfold Qle; simpl; lia).
  destruct (random_uniform_range _ _ g Hr) as [Hlo Hhi].
  repeat split; try reflexivity; assumption.
Qed.

Lemma Qlt_bool_iff (x y : Q) : Qlt_bool x y = true <-> (x < y)%Q.
Proof.
  unfold Qlt_bool. rewrite negb_true_iff. split.
  - intros Hb. apply Qnot_le_lt. intros Hle.
    apply Qle_bool_iff in Hle. congruence.
  - intros Hlt. destruct (Qle_bool y x) eqn:E; [|reflexivity].
    apply Qle_bool_iff in E. exfalso. exact (Qlt_not_le _ _ Hlt E).
Qed.

Lemma ROUTES_NoDup : NoDup ROUTES.
Proof.
  unfold ROUTES.
  repeat (constructor;
          [ simpl; intros Hin;
            repeat (destruct Hin as [Hin|Hin]; [discriminate Hin|]);
            exact Hin | ]).
  constructor.
Qed.

(** The pick by itself: the draw is in [0, 1); below 0.8 it is the entry of
    the general catalog at the index drawn, with GET, otherwise the entry of
    the authentication catalog at the index drawn. *)
Lemma pick_route_policy (AUTH_ROUTES : list (string * string * Z))
    (g : world) :
  let u := fst (random_random g) in
  let g1 := snd (random_random g) in
  (0 <= float_val u)%Q /\ (float_val u < 1)%Q /\
  ((float_val u < float_val (float_lit (8 # 10)))%Q ->
   exists url status,
     nth_error ROUTES (fst (random_randbelow (List.length ROUTES) g1))
       = Some (url, status) /\
     pick_route AUTH_ROUTES g =
       Some (("GET", url, status),
             snd (random_randbelow (List.length ROUTES) g1))) /\
  (~ (float_val u < float_val (float_lit (8 # 10)))%Q ->
   AUTH_ROUTES <> [] ->
   exists method url status,
     nth_error AUTH_ROUTES
       (fst (random_randbelow (List.length AUTH_ROUTES) g1))
       = Some (method, url, status) /\
     pick_route AUTH_ROUTES g =
       Some ((method, url, status),
             snd (random_randbelow (List.length AUTH_ROUTES) g1))) /\
  NoDup ROUTES /\ List.length ROUTES = 24%nat.
Proof.
  intros u g1. subst u g1.
  destruct (random_random_range g) as [H0 H1].
  unfold pick_route. destruct (random_random g) as [u g1]. simpl fst in *.
  simpl snd. repeat split; try assumption.
  - intros Hlt. apply Qlt_bool_iff in Hlt. rewrite Hlt.
    destruct (random_choice_some ROUTES g1 ltac:(discriminate))
      as [[url status] [Hc Hn]].
    exists url, status. rewrite Hc. split; [exact Hn | reflexivity].
  - intros Hge Hne.
    destruct (Qlt_bool (float_val u) _) eqn:E;
      [apply Qlt_bool_iff in E; contradiction|].
    destruct (random_choice_some AUTH_ROUTES g1 Hne)
      as [[[m url] status] [Hc Hn]].
    exists m, url, status. rewrite Hc. split; [exact Hn | reflexivity].
  - apply ROUTES_NoDup.
Qed.

(** The records of a turn carry the route that was picked for it. *)
Lemma iteration_pick (AUTH_ROUTES : list (string * string * Z))
    (st st' : state) (p : record * record) :
  iteration hostname pid AUTH_ROUTES st = Some (p, st') ->
  exists method url status g1,
    pick_route AUTH_ROUTES (rng st) = Some ((method, url, status), g1) /\
    req_method (fst p) = Some method /\
    req_url (fst p) = Some url /\
    res_status (snd p) = Some status.
Proof.
  unfold iteration.
  destruct (pick_route AUTH_ROUTES (rng st)) as [[[[method url] status] g1]|]
    eqn:Epick; [|discriminate].
  destruct (random_randint 53000 53350 g1) as [remote_port g2].
  unfold mk_incoming_request, reqid_next.
  destruct (now_ms g2) as [t0 g3].
  destruct (random_uniform _ _ g3) as [d1 g4].
  pose proof (mk_request_completed_eq hostname pid (req_id (reqid_iter st))
                status t0 (time_sleep d1 g4)) as Hdone.
  destruct (mk_request_completed hostname pid _ status t0 (time_sleep d1 g4))
    as [done g6].
  destruct (random_uniform _ _ g6) as [d2 g7].
  intros [= <- <-]. cbn [fst snd] in *. subst done.
  exists method, url, status, g1. repeat split.
Qed.

(** C6.  On every turn of the steady-state loop the selection draw [u]
    lies in [0, 1).  When it is below 0.8 the incoming record asks for the
    url, with method GET, and the completed record has the status of the
    entry of the general catalog at the index drawn below its length;
    otherwise the method and url of the incoming record and the status of
    the completed record are those of the entry of the authentication
    catalog at the index drawn below its length.  The 24 entries of the
    general catalog are pairwise distinct, so equally likely indices are
    equally likely entries. *)
Theorem iteration_route_policy (AUTH_ROUTES : list (string * string * Z))
    (st : state) :
  AUTH_ROUTES <> [] ->
  let u := fst (random_random (rng st)) in
  let g1 := snd (random_random (rng st)) in
  exists inc done st',
    iteration hostname pid AUTH_ROUTES st = Some ((inc, done), st') /\
    (0 <= float_val u)%Q /\ (float_val u < 1)%Q /\
    ((float_val u < float_val (float_lit (8 # 10)))%Q ->
     exists url status,
       nth_error ROUTES (fst (random_randbelow (List.length ROUTES) g1))
         = Some (url, status) /\
       req_method inc = Some "GET" /\
       req_url inc = Some url /\
       res_status done = Some status) /\
    (~ (float_val u < float_val (float_lit (8 # 10)))%Q ->
     exists method url status,
       nth_error AUTH_ROUTES
         (fst (random_randbelow (List.length AUTH_ROUTES) g1))
         = Some (method, url, status) /\
       req_method inc = Some method /\
       req_url inc = Some url /\
       res_status done = Some status) /\
    NoDup ROUTES /\ List.length ROUTES = 24%nat.
Proof.
  intros Hne u g1.
  destruct (iteration_total hostname pid AUTH_ROUTES st Hne)
    as [[inc done] [st' Hit]].
  destruct (iteration_pick _ _ _ _ Hit)
    as (m & url & s & g2 & Hpick & Hm & Hu & Hs).
  cbn [fst snd] in Hm, Hu, Hs.
  destruct (pick_route_policy AUTH_ROUTES (rng st))
    as (H0 & H1 & Hlow & Hhigh & Hnd & Hlen).
  fold u in H0, H1, Hlow, Hhigh. fold g1 in Hlow, Hhigh.
  exists inc, done, st'. split; [exact Hit|].
  split; [exact H0|]. split; [exact H1|].
  split; [|split; [|split; [exact Hnd | exact Hlen]]].
  - intros Hlt. destruct (Hlow Hlt) as (url' & s' & Hn & Hp).
    rewrite Hpick in Hp. injection Hp as -> -> -> _.
    exists url', s'. auto.
  - intros Hge. destruct (Hhigh Hge Hne) as (m' & url' & s' & Hn & Hp).
    rewrite Hpick in Hp. injection Hp as -> -> -> _.
    exists m', url', s'. auto.
Qed.

Lemma iteration_has_reqId (AUTH_ROUTES : list (string * string * Z))
    (s1 s2 : state) (p : record * record) :
  iteration hostname pid AUTH_ROUTES s1 = Some (p, s2) ->
  get_str "reqId" (fst p) = Some (req_id (reqid_iter s1)) /\
  get_str "reqId" (snd p) = Some (req_id (reqid_iter s1)).
Proof.
  intros Hit. destruct (iteration_inv _ _ _ _ _ _ Hit)
    as (m & u & s & port & t0 & g & _ & _ & Hinc & Hdone & _ & _).
  rewrite mk_request_completed_eq in Hdone. rewrite Hinc, Hdone.
  split; reflexivity.
Qed.

(** C7.  Whatever the number of turns of the loop, the program runs and
    has written exactly three banner lines, after what the file held and
    before every request line.  The three banners have the same time and
    consist of level, time, pid, hostname and msg: no request identifier,
    no request or response descriptor, no response time.  Every later
    record carries a request identifier. *)
Theorem startup_banners (n : nat) (g : world) (fh0 : list string) :
  exists AUTH_ROUTES banners trace st t,
    program hostname pid n g fh0 = Some (AUTH_ROUTES, banners, trace, st) /\
    List.length banners = 3%nat /\
    fh st = (fh0 ++ map line_of banners ++ lines_of trace)%list /\
    Forall (fun b =>
              get_int "time" b = Some t /\
              lookup "reqId" b = None /\ lookup "req" b = None /\
              lookup "res" b = None /\ lookup "responseTime" b = None /\
              keys b = ["level"; "time"; "pid"; "hostname"; "msg"]) banners /\
    Forall (fun p => exists rid,
              get_str "reqId" (fst p) = Some rid /\
              get_str "reqId" (snd p) = Some rid) trace.
Proof.
  unfold program.
  destruct (mk_AUTH_ROUTES_spec g) as [s0 [_ ->]].
  set (AUTH := [ ("POST", "/api/auth/refresh", 401);
                 ("POST", "/api/auth/login", s0);
                 ("POST", "/api/auth/register", 200) ]).
  unfold startup, mk_server_listening_entries.
  destruct (now_ms (random_seed (snd (random_randbelow 2 g)))) as [t g2].
  match goal with
  | |- context [steady _ _ _ _ ?s] => set (st0 := s)
  end.
  destruct (steady_total hostname pid AUTH n st0 ltac:(discriminate))
    as [trace [st Hst]].
  rewrite Hst. destruct (steady_inv _ _ _ _ _ _ _ Hst) as (_ & Hfh & Hall).
  eexists AUTH, _, trace, st, t. split; [reflexivity|].
  split; [reflexivity|]. split; [|split].
  - rewrite Hfh. unfold st0. cbn [fh]. rewrite log_json_fold.
    now rewrite <- app_assoc.
  - simpl. repeat constructor.
  - eapply Forall_impl; [|exact Hall]. intros p (s1 & s2 & Hit).
    exists (req_id (reqid_iter s1)).
    eapply iteration_has_reqId; eassumption.
Qed.

Lemma ROUTES_no_auth_login (status : Z) :
  ~ In ("/api/auth/login", status) ROUTES.
Proof.
  unfold ROUTES. simpl. intros Hin.
  repeat (destruct Hin as [Hin|Hin]; [discriminate Hin|]). exact Hin.
Qed.

Lemma iteration_login_status (login_status : Z) (s1 s2 : state)
    (p : record * record) :
  iteration hostname pid
    [ ("POST", "/api/auth/refresh", 401);
      ("POST", "/api/auth/login", login_status);
      ("POST", "/api/auth/register", 200) ] s1 = Some (p, s2) ->
  req_url (fst p) = Some "/api/auth/login" ->
  res_status (snd p) = Some login_status.
Proof.
  intros Hit. destruct (iteration_inv _ _ _ _ _ _ Hit)
    as (m & u & s & port & t0 & g & Hsel & _ & Hinc & Hdone & _ & _).
  rewrite mk_request_completed_eq in Hdone. rewrite Hinc, Hdone.
  unfold req_url, res_status. simpl. intros [= ->].
  destruct Hsel as [[_ Hin]|Hin].
  - now apply ROUTES_no_auth_login in Hin.
  - simpl in Hin. destruct Hin as [Hin|[Hin|[Hin|[]]]];
      try discriminate Hin. now injection Hin as _ <-.
Qed.

(** C8.  The login entry's status code is drawn when the catalog is built,
    as the program starts, and is 200 or 406.  In every run from there,
    however long, each request for the login route completes with that
    status code. *)
Theorem login_status_fixed (g : world) (fh0 : list string) :
  exists login_status g1,
    (login_status = 200 \/ login_status = 406) /\
    mk_AUTH_ROUTES g =
      Some ([ ("POST", "/api/auth/refresh", 401);
              ("POST", "/api/auth/login", login_status);
              ("POST", "/api/auth/register", 200) ], g1) /\
    forall n : nat,
    exists banners trace st,
      program hostname pid n g fh0 =
        Some ([ ("POST", "/api/auth/refresh", 401);
                ("POST", "/api/auth/login", login_status);
                ("POST", "/api/auth/register", 200) ],
              banners, trace, st) /\
      List.length trace = n /\
      Forall (fun p =>
                req_url (fst p) = Some "/api/auth/login" ->
                res_status (snd p) = Some login_status) trace.
Proof.
  destruct (mk_AUTH_ROUTES_spec g) as [s0 [Hs0 Hmk]].
  exists s0, (snd (random_randbelow 2 g)).
  split; [exact Hs0|]. split; [exact Hmk|]. intros n.
  unfold program. rewrite Hmk.
  destruct (startup hostname pid _ fh0) as [banners st0].
  match goal with
  | |- context [steady _ _ ?a _ _] => set (AUTH := a)
  end.
  destruct (steady_total hostname pid AUTH n st0 ltac:(discriminate))
    as [trace [st Hst]].
  rewrite Hst. destruct (steady_inv _ _ _ _ _ _ _ Hst) as (Hlen & _ & Hall).
  exists banners, trace, st. split; [reflexivity|]. split; [exact Hlen|].
  eapply Forall_impl; [|exact Hall]. intros p (s1 & s2 & Hit).
  eapply iteration_login_status; eassumption.
Qed.

End LoopGuarantees.

(** ** The loop on the small runtime *)

Lemma iteration_correlated_witness :
  demo_auth <> [] /\
  exists inc done st' rid t0 t1,
    iteration "host" 4242 demo_auth demo_state = Some ((inc, done), st') /\
    get_str "reqId" inc = Some rid /\
    get_str "reqId" done = Some rid /\
    get_int "time" inc = Some t0 /\
    get_int "time" done = Some t1 /\
    t0 <= t1 /\
    fh st' = (fh demo_state ++ [line_of inc; line_of done])%list.
Proof.
  split; [discriminate|].
  apply (iteration_correlated "host" 4242 demo_auth demo_state). discriminate.
Defined.

(** C3, as first stated, fails: on this turn the incoming record has time
    1700000 and the completed record time 1700004 with a [responseTime] of
    4.7, so the completed time is below the incoming time plus the elapsed
    time. *)
Lemma completed_time_counterexample :
  match iteration "host" 4242 demo_auth demo_state with
  | Some ((inc, done), _) =>
      get_int "time" inc = Some 1700000 /\
      get_int "time" done = Some 1700004 /\
      option_map float_val (get_float "responseTime" done) = Some (47 # 10) /\
      ~ (inject_Z 1700000 + (47 # 10) <= inject_Z 1700004)%Q
  | None => False
  end.
Proof.
  vm_compute. repeat split. intros H. apply H. reflexivity.
Qed.

Lemma completed_time_truncated_witness :
  demo_auth <> [] /\
  exists inc done st' t0 t1 rt,
    iteration "host" 4242 demo_auth demo_state = Some ((inc, done), st') /\
    get_int "time" inc = Some t0 /\
    get_int "time" done = Some t1 /\
    get_float "responseTime" done = Some rt /\
    t1 = t0 + py_int (float_val rt) /\
    (inject_Z t1 <= inject_Z t0 + float_val rt)%Q /\
    (inject_Z t0 + float_val rt < inject_Z t1 + 1)%Q.
Proof.
  split; [discriminate|].
  apply (completed_time_truncated "host" 4242 demo_auth demo_state).
  discriminate.
Defined.

Lemma iteration_route_policy_witness :
  demo_auth <> [] /\
  let u := fst (random_random (rng demo_state)) in
  let g1 := snd (random_random (rng demo_state)) in
  exists inc done st',
    iteration "host" 4242 demo_auth demo_state = Some ((inc, done), st') /\
    (0 <= float_val u)%Q /\ (float_val u < 1)%Q /\
    ((float_val u < float_val (float_lit (8 # 10)))%Q ->
     exists url status,
       nth_error ROUTES (fst (random_randbelow (List.length ROUTES) g1))
         = Some (url, status) /\
       req_method inc = Some "GET" /\
       req_url inc = Some url /\
       res_status done = Some status) /\
    (~ (float_val u < float_val (float_lit (8 # 10)))%Q ->
     exists method url status,
       nth_error demo_auth
         (fst (random_randbelow (List.length demo_auth) g1))
         = Some (method, url, status) /\
       req_method inc = Some method /\
       req_url inc = Some url /\
       res_status done = Some status) /\
    NoDup ROUTES /\ List.length ROUTES = 24%nat.
Proof.
  split; [discriminate|].
  apply (iteration_route_policy "host" 4242 demo_auth demo_state).
  discriminate.
Defined.

Lemma only_200_is_fast_witness :
  201 <> 200 /\
  get_float "responseTime"
    (fst (mk_request_completed (RT := tenths_runtime) "host" 4242 "req-0" 201 1000 Tenths.w0))
    = Some (fst (random_uniform (Runtime := tenths_runtime) (float_lit (8 # 10)) (float_lit 300)
                   Tenths.w0)) /\
  (float_val (float_lit (8 # 10)) <=
   float_val (fst (random_uniform (Runtime := tenths_runtime) (float_lit (8 # 10)) (float_lit 300)
                     Tenths.w0)))%Q /\
  (float_val (fst (random_uniform (Runtime := tenths_runtime) (float_lit (8 # 10)) (float_lit 300)
                     Tenths.w0))
   <= float_val (float_lit 300))%Q /\
  get_float "responseTime"
    (fst (mk_request_completed (RT := tenths_runtime) "host" 4242 "req-0" 200 1000 Tenths.w0))
    = Some (fst (random_uniform (Runtime := tenths_runtime) (float_lit (8 # 10)) (float_lit 40)
                   Tenths.w0)).
Proof.
  split; [discriminate|].
  apply (only_200_is_fast (RT := tenths_runtime)
           "host" 4242 "req-0" 201 1000 Tenths.w0).
  discriminate.
Defined.

(** ** Request identifiers *)

Lemma parse_dec_str_of_int (n : Z) : parse_dec (str_of_int n) = Some n.
Proof.
  unfold parse_dec, str_of_int.
  rewrite DecimalString.NilZero.isi.
  - simpl. now rewrite DecimalZ.of_to.
  - destruct n; simpl; try discriminate.
    intros [= E]. now apply DecimalPos.Unsigned.to_uint_nonnil in E.
  - destruct n; simpl; try discriminate.
    intros [= E]. now apply DecimalPos.Unsigned.to_uint_nonnil in E.
Qed.

Lemma str_of_int_inj (m n : Z) : str_of_int m = str_of_int n -> m = n.
Proof.
  intros E. pose proof (parse_dec_str_of_int m) as Hm.
  rewrite E, parse_dec_str_of_int in Hm. congruence.
Qed.

Lemma in_first36 (n : Z) : 1 <= n <= 36 -> In n first36.
Proof.
  intros Hn. unfold first36. apply in_map_iff. exists (Z.to_nat n).
  split; [lia|]. apply in_seq. lia.
Qed.

Lemma forallb_first36 (P : Z -> bool) (n : Z) :
  forallb P first36 = true -> 1 <= n <= 36 -> P n = true.
Proof.
  intros Hall Hn. rewrite forallb_forall in Hall.
  apply Hall, in_first36, Hn.
Qed.

Lemma req_id_late (n : Z) : 37 <= n -> req_id n = "req-" ++ str_of_int n.
Proof.
  intros Hn. unfold req_id.
  destruct (Z.leb_spec n 10); [lia|].
  destruct (Z.ltb_spec (n - 1) (len alphabet)); [|reflexivity].
  unfold len in *. simpl in *. lia.
Qed.

(** Among the first 36 identifiers none reads, after its prefix, as a
    decimal number from 37 on. *)
Lemma early_suffix_small (m : Z) (s : string) :
  1 <= m <= 36 -> req_id m = "req-" ++ s ->
  match parse_dec s with
  | Some v => v < 37
  | None => True
  end.
Proof.
  intros Hm.
  pose proof (forallb_first36
    (fun k => match req_id k with
              | String _ (String _ (String _ (String _ t))) =>
                  match parse_dec t with
                  | Some v => v <? 37
                  | None => true
                  end
              | _ => false
              end) m ltac:(vm_compute; reflexivity) Hm) as H.
  cbv beta in H. intros E. rewrite E in H. simpl in H.
  destruct (parse_dec s); [|exact I]. now apply Z.ltb_lt.
Qed.

Lemma req_id_inj (m n : Z) :
  1 <= m -> 1 <= n -> req_id m = req_id n -> m = n.
Proof.
  intros Hm Hn E.
  destruct (Z.le_gt_cases m 36) as [Hm36|Hm36];
    destruct (Z.le_gt_cases n 36) as [Hn36|Hn36].
  - pose proof (forallb_first36
      (fun a => forallb
         (fun b => implb (String.eqb (req_id a) (req_id b)) (a =? b))
         first36) m ltac:(vm_compute; reflexivity) ltac:(lia)) as H.
    cbv beta in H. rewrite forallb_forall in H.
    specialize (H n (in_first36 n ltac:(lia))).
    rewrite E, String.eqb_refl in H. simpl in H. now apply Z.eqb_eq.
  - rewrite (req_id_late n) in E by lia.
    pose proof (early_suffix_small m _ ltac:(lia) E) as H.
    rewrite parse_dec_str_of_int in H. lia.
  - rewrite (req_id_late m) in E by lia. symmetry in E.
    pose proof (early_suffix_small n _ ltac:(lia) E) as H.
    rewrite parse_dec_str_of_int in H. lia.
  - rewrite (req_id_late m), (req_id_late n) in E by lia.
    injection E as E. now apply str_of_int_inj.
Qed.

(** The identifiers a run of the loop issues are the generator's values at
    the successive values of the counter. *)
Lemma steady_reqids `{RT : Runtime} (hostname : string) (pid : Z)
    (AUTH_ROUTES : list (string * string * Z)) (n : nat) (st st' : state)
    (trace : list (record * record)) :
  steady hostname pid AUTH_ROUTES n st = Some (trace, st') ->
  map (fun p => get_str "reqId" (fst p)) trace =
  map (fun k => Some (req_id (reqid_iter st + Z.of_nat k))) (seq 0 n).
Proof.
  revert st st' trace. induction n as [|n IH]; intros st st' trace.
  - simpl. now intros [= <- <-].
  - cbn [steady].
    destruct (iteration hostname pid AUTH_ROUTES st) as [[p st1]|] eqn:Eit;
      [|discriminate].
    destruct (steady hostname pid AUTH_ROUTES n st1) as [[ps st2]|] eqn:Est;
      [|discriminate].
    intros [= <- <-].
    destruct (iteration_has_reqId _ _ _ _ _ _ Eit) as [Hrid _].
    destruct (iteration_inv _ _ _ _ _ _ Eit)
      as (_ & _ & _ & _ & _ & _ & _ & _ & _ & _ & Hnext & _).
    cbn [map seq]. rewrite Hrid, Z.add_0_r. f_equal.
    rewrite (IH _ _ _ Est), Hnext, <- seq_shift, map_map.
    apply map_ext. intros k. do 2 f_equal. lia.
Qed.

(** C5, as first stated, fails on the order: the 36th identifier is req-z
    and the 37th is req-37, which comes before it in string order. *)
Lemma req_id_order_counterexample :
  req_id 36 = "req-z" /\ req_id 37 = "req-37" /\
  String.ltb (req_id 36) (req_id 37) = false /\
  String.ltb (req_id 37) (req_id 36) = true.
Proof. repeat split. Qed.

(** C5, as amended.  The first 36 identifiers are req-0 to req-9 and then
    req-a to req-z, the n-th ending in the character of the alphabet at
    position n - 1; from the 37th on the identifier is req- followed by n
    in decimal.  A run of the loop issues them in this order, starting at
    1.  All identifiers are pairwise distinct.  In string order they
    increase strictly over the first 36 only; from the 37th on the suffix
    reads back as the number n. *)
Theorem req_id_sequence :
  map req_id first36 =
    [ "req-0"; "req-1"; "req-2"; "req-3"; "req-4"; "req-5"; "req-6";
      "req-7"; "req-8"; "req-9"; "req-a"; "req-b"; "req-c"; "req-d";
      "req-e"; "req-f"; "req-g"; "req-h"; "req-i"; "req-j"; "req-k";
      "req-l"; "req-m"; "req-n"; "req-o"; "req-p"; "req-q"; "req-r";
      "req-s"; "req-t"; "req-u"; "req-v"; "req-w"; "req-x"; "req-y";
      "req-z" ] /\
  (forall n, 1 <= n <= 36 ->
     exists c, str_index alphabet (n - 1) = Some c /\
               req_id n = "req-" ++ String c "") /\
  (forall n, 37 <= n ->
     req_id n = "req-" ++ str_of_int n /\
     parse_dec (str_of_int n) = Some n) /\
  (forall `(RT : Runtime) hostname pid n g fh0 AUTH_ROUTES banners trace st,
     program hostname pid n g fh0 = Some (AUTH_ROUTES, banners, trace, st) ->
     map (fun p => get_str "reqId" (fst p)) trace =
     map (fun k => Some (req_id (Z.of_nat k))) (seq 1 n)) /\
  (forall m n, 1 <= m -> 1 <= n -> req_id m = req_id n -> m = n) /\
  (forall m n, 1 <= m -> m < n -> n <= 36 ->
     String.ltb (req_id m) (req_id n) = true).
Proof.
  split; [reflexivity|]. split; [|split; [|split; [|split]]].
  - intros n Hn.
    pose proof (forallb_first36
      (fun k => match str_index alphabet (k - 1) with
                | Some c => String.eqb (req_id k) ("req-" ++ String c "")
                | None => false
                end) n ltac:(vm_compute; reflexivity) Hn) as H.
    cbv beta in H. destruct (str_index alphabet (n - 1)) as [c|];
      [|discriminate]. exists c. split; [reflexivity|].
    now apply String.eqb_eq.
  - intros n Hn. split; [now apply req_id_late | apply parse_dec_str_of_int].
  - intros H RT hostname pid n g fh0 AUTH banners trace st. unfold program.
    destruct (mk_AUTH_ROUTES g) as [[A g1]|]; [|discriminate].
    destruct (startup hostname pid g1 fh0) as [bs s0] eqn:Es.
    destruct (steady hostname pid A n s0) as [[tr s1]|] eqn:Est;
      [|discriminate].
    intros [= <- <- <- <-]. rewrite (steady_reqids _ _ _ _ _ _ _ Est).
    assert (Hi : reqid_iter s0 = 1).
    { unfold startup in Es. destruct (mk_server_listening_entries _ _ _).
      now injection Es as _ <-. }
    rewrite Hi, <- seq_shift, map_map. apply map_ext. intros k.
    do 2 f_equal. lia.
  - apply req_id_inj.
  - intros m n Hm Hmn Hn.
    pose proof (forallb_first36
      (fun a => forallb
         (fun b => implb (a <? b) (String.ltb (req_id a) (req_id b)))
         first36) m ltac:(vm_compute; reflexivity) ltac:(lia)) as H.
    cbv beta in H. rewrite forallb_forall in H.
    specialize (H n (in_first36 n ltac:(lia))).
    destruct (Z.ltb_spec m n); [exact H | lia].
Qed.

(** ** The target resolver *)

Lemma jsonish_of_candidates (paths js : list dirent) :
  jsonish_of paths = Some js -> js = candidates paths.
Proof.
  revert js. induction paths as [|p ps IH]; intros js; simpl.
  - now intros [= <-].
  - unfold is_candidate. destruct (d_is_file p) as [b|]; [|discriminate].
    destruct (jsonish_of ps) as [r|]; [|discriminate].
    intros [= <-]. rewrite (IH r eq_refl).
    destruct b; simpl; reflexivity.
Qed.

Lemma jsonish_of_some (paths : list dirent) :
  (forall p, In p paths -> d_is_file p <> None) ->
  jsonish_of paths = Some (candidates paths).
Proof.
  induction paths as [|p ps IH]; intros Hall; simpl; [reflexivity|].
  unfold is_candidate.
  destruct (d_is_file p) as [b|] eqn:E;
    [|exfalso; apply (Hall p); [now left | exact E]].
  rewrite IH by (intros q Hq; apply Hall; now right).
  destruct b; simpl; reflexivity.
Qed.

Lemma jsonish_of_none (paths : list dirent) (p : dirent) :
  In p paths -> d_is_file p = None -> jsonish_of paths = None.
Proof.
  induction paths as [|q ps IH]; simpl; [tauto|].
  intros [->|Hin] Hp.
  - now rewrite Hp.
  - destruct (d_is_file q); [|reflexivity]. now rewrite (IH Hin Hp).
Qed.

Lemma keyed_none (l : list dirent) (p : dirent) :
  In p l -> d_mtime p = None -> keyed l = None.
Proof.
  induction l as [|q l IH]; simpl; [tauto|].
  intros [->|Hin] Hp.
  - now rewrite Hp.
  - rewrite (IH Hin Hp). now destruct (d_mtime q).
Qed.

Lemma keyed_some (l : list dirent) :
  (forall p, In p l -> d_mtime p <> None) ->
  exists ks, keyed l = Some ks /\ List.length ks = List.length l /\
    forall t p, In (t, p) ks -> In p l /\ d_mtime p = Some t.
Proof.
  induction l as [|q l IH]; intros Hall; simpl.
  - exists []. repeat split; simpl in *; tauto.
  - destruct (d_mtime q) as [t|] eqn:E;
      [|exfalso; apply (Hall q); [now left | exact E]].
    destruct IH as (ks & -> & Hlen & Hin);
      [intros p Hp; apply Hall; now right|].
    exists ((t, q) :: ks). split; [reflexivity|]. split; [simpl; lia|].
    intros t' p [[= <- <-]|Hp]; [auto|].
    destruct (Hin _ _ Hp). auto.
Qed.

Lemma keyed_complete (l : list dirent) (ks : list (Q * dirent)) (p : dirent)
    (t : Q) :
  keyed l = Some ks -> In p l -> d_mtime p = Some t -> In (t, p) ks.
Proof.
  revert ks. induction l as [|q l IH]; intros ks; simpl; [tauto|].
  destruct (d_mtime q) as [tq|] eqn:E; [|discriminate].
  destruct (keyed l) as [r|]; [|discriminate].
  intros [= <-] [->|Hin] Hp.
  - left. congruence.
  - right. now apply (IH r).
Qed.

Lemma insert_desc_in (x z : Q * dirent) (l : list (Q * dirent)) :
  In z (insert_desc x l) <-> z = x \/ In z l.
Proof.
  induction l as [|y l IH]; simpl; [intuition|].
  destruct (Qlt_bool (fst x) (fst y)); simpl; [rewrite IH|]; intuition.
Qed.

Lemma sort_desc_in (z : Q * dirent) (l : list (Q * dirent)) :
  In z (sort_desc l) <-> In z l.
Proof.
  induction l as [|x l IH]; simpl; [tauto|].
  rewrite insert_desc_in, IH. intuition.
Qed.

Lemma insert_desc_head_max (x : Q * dirent) (l : list (Q * dirent)) :
  head_max l -> head_max (insert_desc x l).
Proof.
  destruct l as [|y l]; simpl.
  - intros _ z [<-|[]]. apply Qle_refl.
  - intros Hy. destruct (Qlt_bool (fst x) (fst y)) eqn:E; simpl.
    + apply Qlt_bool_iff in E.
      intros z [<-|Hz]; [apply Qle_refl|].
      apply insert_desc_in in Hz. destruct Hz as [->|Hz].
      * now apply Qlt_le_weak.
      * apply Hy. now right.
    + assert (Hyx : (fst y <= fst x)%Q).
      { apply Qnot_lt_le. intros Hlt. apply Qlt_bool_iff in Hlt. congruence. }
      intros z [<-|Hz]; [apply Qle_refl|].
      eapply Qle_trans; [apply Hy, Hz | exact Hyx].
Qed.

Lemma sort_desc_head_max (l : list (Q * dirent)) : head_max (sort_desc l).
Proof.
  induction l as [|x l IH]; simpl; [exact I|].
  now apply insert_desc_head_max.
Qed.

(** The scan when no call raises and there are candidates: the newest one. *)
Lemma scan_newest (paths : list dirent) :
  (forall p, paths = [p] -> d_is_file p = Some false) ->
  (forall p, In p paths -> d_is_file p <> None) ->
  (forall p, In p (candidates paths) -> d_mtime p <> None) ->
  candidates paths <> [] ->
  exists p t,
    In p (candidates paths) /\ d_mtime p = Some t /\
    (forall q t', In q (candidates paths) -> d_mtime q = Some t' ->
                  (t' <= t)%Q) /\
    scan_logs_dir (Some paths) = Some (path_str p).
Proof.
  intros Hsingle Hfile Hstat Hne. unfold scan_logs_dir.
  assert (Hs : match paths with [p] => d_is_file p | _ => Some false end
               = Some false).
  { destruct paths as [|p [|q l]]; try reflexivity. now apply Hsingle. }
  rewrite Hs, (jsonish_of_some paths Hfile).
  destruct (candidates paths) as [|c0 cs] eqn:Ec; [congruence|].
  destruct (keyed_some (c0 :: cs) Hstat) as (ks & Hk & Hlen & Hin).
  rewrite Hk.
  pose proof (sort_desc_head_max ks) as Hmax.
  destruct (sort_desc ks) as [|[t p] rest] eqn:Es.
  - destruct ks as [|k ks']; [simpl in Hlen; discriminate|].
    assert (Hk0 : In k (sort_desc (k :: ks'))) by (apply sort_desc_in; now left).
    rewrite Es in Hk0. destruct Hk0.
  - assert (Hp : In (t, p) ks) by (apply sort_desc_in; rewrite Es; now left).
    destruct (Hin _ _ Hp) as [Hpc Hpt].
    exists p, t. repeat split; try assumption.
    intros q t' Hq Hqt.
    apply (Hmax (t', q)). rewrite <- Es. apply sort_desc_in.
    eapply keyed_complete; eassumption.
Qed.

(** The scan falls back when listing raises, when an [is_file()] or a
    [stat()] it makes raises, or when there is no candidate. *)
Lemma scan_fallback (paths : list dirent) :
  (forall p, paths = [p] -> d_is_file p <> Some true) ->
  candidates paths = [] \/
  (exists p, In p paths /\ d_is_file p = None) \/
  (exists p, In p (candidates paths) /\ d_mtime p = None) ->
  scan_logs_dir (Some paths) = None.
Proof.
  intros Hsingle Hcase. unfold scan_logs_dir.
  destruct (match paths with [p] => d_is_file p | _ => Some false end)
    as [[|]|] eqn:Hs; [| |reflexivity].
  - destruct paths as [|p [|q l]]; try discriminate.
    now apply Hsingle in Hs.
  - destruct (jsonish_of paths) as [js|] eqn:Ej; [|reflexivity].
    apply jsonish_of_candidates in Ej as Ec. subst js.
    destruct Hcase as [Hc|[(p & Hin & Hp)|(p & Hin & Hp)]].
    + now rewrite Hc.
    + now rewrite (jsonish_of_none _ _ Hin Hp) in Ej.
    + rewrite (keyed_none _ _ Hin Hp). now destruct (candidates paths).
Qed.

Lemma scan_logs_dir_nonempty (glob : option (list dirent)) (path : string) :
  scan_logs_dir glob = Some path -> path <> "".
Proof.
  assert (Hp : forall p, path_str p <> "") by (intros p; discriminate).
  unfold scan_logs_dir. destruct glob as [paths|]; [|discriminate].
  destruct (match paths with [p] => d_is_file p | _ => Some false end)
    as [[|]|]; [| |discriminate].
  - destruct paths; [discriminate|]. intros [= <-]. apply Hp.
  - destruct (jsonish_of paths) as [[|j js]|]; try discriminate.
    destruct (keyed (j :: js)) as [ks|]; [|discriminate].
    destruct (sort_desc ks) as [|[t p] r]; [discriminate|].
    intros [= <-]. apply Hp.
Qed.

(** C2, as first stated, fails.  A directory that holds exactly one file,
    a.txt, next to a sub-directory is answered with the default path, not
    with that file; an override that is present but empty is not
    returned; and the answer for a.txt, b.jsonlog, c.jsonlog is the path
    /logs/b.jsonlog, not the bare name. *)
Lemma detect_log_file_counterexample :
  let paths := [file_entry "a.txt" 1; dir_entry "old" 2] in
  filter (fun p => match d_is_file p with Some true => true | _ => false end)
    paths = [file_entry "a.txt" 1] /\
  detect_log_file None (Some paths) = default_log_file /\
  detect_log_file None (Some paths) <> path_str (file_entry "a.txt" 1) /\
  detect_log_file (Some "") (Some []) <> "" /\
  detect_log_file None
    (Some [file_entry "a.txt" 1; file_entry "b.jsonlog" 3;
           file_entry "c.jsonlog" 2]) <> "b.jsonlog".
Proof. repeat split; discriminate. Qed.

(** C2, as amended.  The resolver always returns a non-empty path.  An
    override that is set and not empty is returned as it is.  Otherwise,
    when the directory has exactly one entry and it is a file, the path of
    that file is returned; otherwise, when no call raises and some file has
    json or log in its lower-cased name, the path of a most recently
    modified one of these; and the default path when listing raises, when
    an is_file() or stat() the scan makes raises, or when no entry is a
    candidate.  With a.txt, b.jsonlog and c.jsonlog listed in any order, b
    newer than c, the answer is /logs/b.jsonlog. *)
Theorem detect_log_file_resolves (env : option string)
    (glob : option (list dirent)) :
  detect_log_file env glob <> "" /\
  (forall c e, env = Some (String c e) ->
     detect_log_file env glob = String c e) /\
  (env = None \/ env = Some "" ->
   (forall p, glob = Some [p] -> d_is_file p = Some true ->
      detect_log_file env glob = path_str p) /\
   (forall paths, glob = Some paths ->
      (forall p, paths = [p] -> d_is_file p = Some false) ->
      (forall p, In p paths -> d_is_file p <> None) ->
      (forall p, In p (candidates paths) -> d_mtime p <> None) ->
      candidates paths <> [] ->
      exists p t,
        In p (candidates paths) /\ d_mtime p = Some t /\
        (forall q t', In q (candidates paths) -> d_mtime q = Some t' ->
                      (t' <= t)%Q) /\
        detect_log_file env glob = path_str p) /\
   (glob = None -> detect_log_file env glob = default_log_file) /\
   (forall paths, glob = Some paths ->
      (forall p, paths = [p] -> d_is_file p <> Some true) ->
      candidates paths = [] \/
      (exists p, In p paths /\ d_is_file p = None) \/
      (exists p, In p (candidates paths) /\ d_mtime p = None) ->
      detect_log_file env glob = default_log_file) /\
   (forall paths ta tb tc,
      Permutation paths
        [file_entry "a.txt" ta; file_entry "b.jsonlog" tb;
         file_entry "c.jsonlog" tc] ->
      (tc < tb)%Q -> glob = Some paths ->
      detect_log_file env glob = "/logs/b.jsonlog")).
Proof.
  assert (Hscan : forall paths,
            (forall p, paths = [p] -> d_is_file p = Some false) ->
            (forall p, In p paths -> d_is_file p <> None) ->
            (forall p, In p (candidates paths) -> d_mtime p <> None) ->
            candidates paths <> [] ->
            env = None \/ env = Some "" -> glob = Some paths ->
            exists p t,
              In p (candidates paths) /\ d_mtime p = Some t /\
              (forall q t', In q (candidates paths) -> d_mtime q = Some t' ->
                            (t' <= t)%Q) /\
              detect_log_file env glob = path_str p).
  { intros paths H1 H2 H3 H4 Henv ->.
    destruct (scan_newest paths H1 H2 H3 H4) as (p & t & Hin & Ht & Hmax & Hs).
    exists p, t. repeat split; try assumption.
    unfold detect_log_file. rewrite Hs. now destruct Henv as [->| ->]. }
  split; [|split].
  - unfold detect_log_file. destruct env as [[|c e]|]; try discriminate;
      (destruct (scan_logs_dir glob) as [path|] eqn:Es; [|discriminate]);
      apply scan_logs_dir_nonempty in Es; exact Es.
  - intros c e ->. reflexivity.
  - intros Henv. split; [|split; [|split; [|split]]].
    + intros p -> Hp. unfold detect_log_file, scan_logs_dir. rewrite Hp.
      now destruct Henv as [->| ->].
    + intros paths Hg H1 H2 H3 H4. now apply Hscan.
    + intros ->. now destruct Henv as [->| ->].
    + intros paths -> H1 H2. unfold detect_log_file.
      rewrite (scan_fallback paths H1 H2). now destruct Henv as [->| ->].
    + intros paths ta tb tc Hperm Hlt Hg.
      set (a := file_entry "a.txt" ta) in *.
      set (b := file_entry "b.jsonlog" tb) in *.
      set (c := file_entry "c.jsonlog" tc) in *.
      assert (Hin : forall p, In p paths <-> p = a \/ p = b \/ p = c).
      { intros p. split; intros Hp.
        - apply (Permutation_in _ Hperm) in Hp. simpl in Hp. intuition.
        - apply (Permutation_in _ (Permutation_sym Hperm)). simpl. intuition. }
      assert (Hcand : forall p, In p (candidates paths) <-> p = b \/ p = c).
      { intros p. unfold candidates. rewrite filter_In, Hin. split.
        - intros [[-> | [-> | ->]] Hc]; [discriminate Hc| |]; auto.
        - intros [-> | ->]; split; auto. }
      destruct (Hscan paths) as (p & t & Hp & Ht & Hmax & ->); auto.
      * intros p ->. apply Permutation_length in Hperm. discriminate Hperm.
      * intros p Hp. apply Hin in Hp. destruct Hp as [-> | [-> | ->]]; discriminate.
      * intros p Hp. apply Hcand in Hp. destruct Hp as [-> | ->]; discriminate.
      * intros E. assert (Hb : In b (candidates paths)) by (apply Hcand; auto).
        rewrite E in Hb. destruct Hb.
      * apply Hcand in Hp. destruct Hp as [-> | ->]; [reflexivity|].
        exfalso. simpl in Ht. injection Ht as <-.
        assert (Hb : In b (candidates paths)) by (apply Hcand; auto).
        specialize (Hmax b tb Hb eq_refl).
        exact (Qlt_not_le _ _ Hlt Hmax).
Qed.

(** ** Strings through the encoder and the decoder *)

Lemma str_app_assoc (a b c : string) : (a ++ b) ++ c = a ++ (b ++ c).
Proof. induction a as [|x a IH]; simpl; [reflexivity | now rewrite IH]. Qed.

Lemma str_length_app (a b : string) :
  String.length (a ++ b) = (String.length a + String.length b)%nat.
Proof. induction a as [|x a IH]; simpl; [reflexivity | now rewrite IH]. Qed.

Section RoundTrip.

Context `{FM : FloatModel}.

Ltac each_char c :=
  destruct c as [[] [] [] [] [] [] [] []].

Lemma scan_escape_char (c : ascii) (t : string) :
  scan_string (escape_char c ++ t) = cons_fst c (scan_string t).
Proof. each_char c; reflexivity. Qed.

Lemma scan_escape_str (s rest : string) :
  scan_string (escape_str s ++ String dquote rest) = Some (s, rest).
Proof.
  induction s as [|c s IH]; simpl; [reflexivity|].
  rewrite str_app_assoc, scan_escape_char, IH. reflexivity.
Qed.

Lemma escape_char_printable (c : ascii) :
  str_forall printable (escape_char c) = true.
Proof. each_char c; reflexivity. Qed.

Lemma escape_str_printable (s : string) :
  str_forall printable (escape_str s) = true.
Proof.
  induction s as [|c s IH]; simpl; [reflexivity|].
  now rewrite str_forall_app, escape_char_printable, IH.
Qed.

Lemma encode_str_printable (s : string) :
  str_forall printable (encode_str s) = true.
Proof.
  unfold encode_str. simpl.
  now rewrite str_forall_app, escape_str_printable.
Qed.

Lemma scan_encode_str (s rest : string) :
  exists t, encode_str s ++ rest = String dquote t /\
            scan_string t = Some (s, rest).
Proof.
  exists (escape_str s ++ String dquote rest). split.
  - unfold encode_str. simpl. now rewrite str_app_assoc.
  - apply scan_escape_str.
Qed.

(** *** Numbers *)

Lemma span_num_app (tok rest : string) :
  str_forall is_num_char tok = true -> delimited rest = true ->
  span_num (tok ++ rest) = (tok, rest).
Proof.
  intros Htok Hrest. induction tok as [|c tok IH]; simpl in *.
  - destruct rest as [|r rest]; [reflexivity|]. simpl in *.
    apply negb_true_iff in Hrest. now rewrite Hrest.
  - apply andb_true_iff in Htok. destruct Htok as [Hc Htok].
    now rewrite Hc, (IH Htok).
Qed.

Lemma uint_nonempty (d : Decimal.uint) :
  exists c t, DecimalString.NilZero.string_of_uint d = String c t.
Proof. destruct d; simpl; eauto. Qed.

(** [str(z)] is a digit or a minus sign followed by digits only. *)
Lemma str_of_int_shape (z : Z) :
  exists c t, str_of_int z = String c t /\
              is_num_start c = true /\ str_forall is_digit t = true.
Proof.
  unfold str_of_int. destruct (Z.to_int z) as [d|d]; simpl.
  - pose proof (uint_digits d) as Hd. destruct (uint_nonempty d) as (c & t & E).
    rewrite E in *. simpl in Hd. apply andb_true_iff in Hd.
    exists c, t. unfold is_num_start. rewrite (proj1 Hd). intuition.
  - exists "-"%char, (DecimalString.NilZero.string_of_uint d).
    repeat split. apply uint_digits.
Qed.

Lemma is_num_start_num_char (c : ascii) :
  is_num_start c = true -> is_num_char c = true.
Proof. unfold is_num_char. now intros ->. Qed.

Lemma is_num_start_not_mark (c : ascii) :
  is_num_start c = true -> is_float_mark c = false.
Proof. each_char c; vm_compute; congruence. Qed.

Lemma is_num_char_printable (c : ascii) :
  is_num_char c = true -> printable c = true.
Proof. each_char c; vm_compute; congruence. Qed.

Lemma digits_no_mark (t : string) :
  str_forall is_digit t = true -> str_exists is_float_mark t = false.
Proof.
  induction t as [|c t IH]; simpl; [reflexivity|].
  rewrite andb_true_iff. intros [Hc Ht].
  now rewrite (is_digit_not_mark c Hc), (IH Ht).
Qed.

Lemma str_of_int_num_chars (z : Z) :
  str_forall is_num_char (str_of_int z) = true.
Proof.
  destruct (str_of_int_shape z) as (c & t & -> & Hc & Ht). simpl.
  rewrite (is_num_start_num_char c Hc). simpl.
  apply (str_forall_impl is_digit); [apply is_digit_num_char | exact Ht].
Qed.

Lemma parse_number_int (z : Z) (rest : string) :
  delimited rest = true ->
  parse_number (str_of_int z ++ rest) = Some (JInt z, rest).
Proof.
  intros Hrest. unfold parse_number.
  rewrite (span_num_app _ _ (str_of_int_num_chars z) Hrest).
  assert (Hm : str_exists is_float_mark (str_of_int z) = false).
  { destruct (str_of_int_shape z) as (c & t & -> & Hc & Ht). simpl.
    now rewrite (is_num_start_not_mark c Hc), (digits_no_mark t Ht). }
  rewrite Hm. pose proof (parse_dec_str_of_int z) as Hp.
  unfold parse_dec in Hp.
  destruct (DecimalString.NilZero.int_of_string (str_of_int z)) as [d|];
    [|discriminate]. simpl in Hp. now injection Hp as ->.
Qed.

Lemma parse_number_float (f : float) (rest : string) :
  delimited rest = true ->
  parse_number (float_repr f ++ rest) = Some (JFloat f, rest).
Proof.
  intros Hrest. unfold parse_number.
  rewrite (span_num_app _ _ (float_repr_chars f) Hrest).
  now rewrite float_repr_mark, float_of_str_repr.
Qed.

End RoundTrip.

(** ** Values through the encoder and the decoder *)

Section ValueRoundTrip.

Context `{FM : FloatModel}.

Lemma json_dumps_obj (items : list (string * json)) :
  json_dumps (JObj items) = "{" ++ dumps_items items ++ "}".
Proof. reflexivity. Qed.

Lemma need_obj (items : list (string * json)) :
  need (JObj items) = S (need_items items).
Proof. reflexivity. Qed.

Lemma wf_json_obj (items : list (string * json)) :
  wf_json (JObj items) <->
  NoDup (map fst items) /\ Forall (fun kx => wf_json (snd kx)) items.
Proof.
  simpl. apply and_iff_compat_l.
  induction items as [|[k x] l IH]; simpl.
  - split; auto.
  - rewrite IH. split.
    + intros [Hx Hl]. now constructor.
    + intros H. inversion H; subst. auto.
Qed.

Lemma ws_head (lenient : bool) (c : ascii) (s : string) :
  is_ws c = false -> ws lenient (String c s) = String c s.
Proof. intros Hc. destruct lenient; simpl; [now rewrite Hc | reflexivity]. Qed.

Lemma dict_set_fresh (k : string) (v : json) (d : list (string * json)) :
  ~ In k (map fst d) -> dict_set k v d = (d ++ [(k, v)])%list.
Proof.
  induction d as [|[k' v'] d IH]; simpl; [reflexivity|].
  intros Hk. destruct (String.eqb_spec k k') as [->|_]; [tauto|].
  rewrite IH; [reflexivity | tauto].
Qed.

Lemma num_start_dispatch (c : ascii) :
  is_num_start c = true ->
  is_ws c = false /\ (N_of_ascii c =? 34)%N = false /\
  (N_of_ascii c =? 123)%N = false.
Proof. destruct c as [[] [] [] [] [] [] [] []]; vm_compute; intuition congruence. Qed.

Lemma parse_value_step (lenient : bool) (f : nat) (c : ascii) (t : string) :
  is_ws c = false ->
  parse_value lenient (S f) (String c t) =
  if (N_of_ascii c =? 34)%N then
    match scan_string t with
    | Some (str, rest') => Some (JStr str, rest')
    | None => None
    end
  else if (N_of_ascii c =? 123)%N then
    match ws lenient t with
    | "" => None
    | String c1 rest1 =>
        if (N_of_ascii c1 =? 125)%N then Some (JObj [], rest1)
        else parse_members lenient f [] t
    end
  else if is_num_start c then parse_number (String c t)
  else None.
Proof. intros Hc. cbn [parse_value]. now rewrite (ws_head lenient c t Hc). Qed.

Lemma parse_members_step (lenient : bool) (f : nat)
    (acc : list (string * json)) (k : string) (t : string) :
  parse_members lenient (S f) acc
    (String dquote (escape_str k ++ String dquote (String ":" t))) =
  match parse_value lenient f t with
  | None => None
  | Some (v, rest3) =>
      match ws lenient rest3 with
      | "" => None
      | String c2 rest4 =>
          if (N_of_ascii c2 =? 44)%N
          then parse_members lenient f (dict_set k v acc) rest4
          else if (N_of_ascii c2 =? 125)%N
          then Some (JObj (dict_set k v acc), rest4)
          else None
      end
  end.
Proof.
  cbn [parse_members]. rewrite (ws_head lenient dquote _ eq_refl).
  change (N_of_ascii dquote =? 34)%N with true. cbv iota.
  rewrite scan_escape_str. rewrite (ws_head lenient ":"%char t eq_refl).
  reflexivity.
Qed.

Lemma dumps_items_cons (k : string) (x : json) (l : list (string * json))
    (rest : string) :
  dumps_items ((k, x) :: l) ++ String "}" rest =
  String dquote (escape_str k ++ String dquote (String ":"
    (json_dumps x ++
     match l with
     | [] => String "}" rest
     | _ => String "," (dumps_items l ++ String "}" rest)
     end))).
Proof.
  cbn [dumps_items]. unfold encode_str.
  cbn [String.append]. rewrite !str_app_assoc. cbn [String.append].
  rewrite !str_app_assoc. destruct l; reflexivity.
Qed.

Lemma parse_members_dumps (items : list (string * json)) :
  items <> [] ->
  Forall (fun kx => reads_back (snd kx)) items ->
  Forall (fun kx => wf_json (snd kx)) items ->
  forall lenient fuel acc rest,
    (need_items items <= fuel)%nat ->
    NoDup (map fst acc ++ map fst items) ->
    parse_members lenient fuel acc (dumps_items items ++ String "}" rest) =
    Some (JObj (acc ++ items), rest).
Proof.
  induction items as [|[k x] l IH]; [congruence|].
  intros _ Hrb Hwf lenient fuel acc rest Hfuel Hnd.
  inversion Hrb as [|? ? Hx Hl]; subst. inversion Hwf as [|? ? Wx Wl]; subst.
  cbn [snd] in Hx, Wx. cbn [need_items] in Hfuel.
  destruct fuel as [|f]; [lia|].
  rewrite dumps_items_cons, parse_members_step.
  assert (Hk : ~ In k (map fst acc)).
  { cbn [map fst] in Hnd. apply NoDup_remove_2 in Hnd.
    intros Hin. apply Hnd, in_or_app. now left. }
  assert (Hnd' : NoDup (map fst (acc ++ [(k, x)]) ++ map fst l)).
  { rewrite map_app. cbn [map fst]. now rewrite <- app_assoc. }
  destruct l as [|i l'].
  - rewrite (Hx Wx lenient f (String "}" rest)); [|lia|reflexivity].
    rewrite (ws_head lenient "}"%char rest eq_refl).
    rewrite (dict_set_fresh k x acc Hk). reflexivity.
  - rewrite (Hx Wx lenient f (String "," _)); [|lia|reflexivity].
    rewrite (ws_head lenient ","%char _ eq_refl).
    change (N_of_ascii "," =? 44)%N with true. cbv iota.
    rewrite (dict_set_fresh k x acc Hk).
    rewrite IH; try assumption; try discriminate; [|lia].
    now rewrite <- app_assoc.
Qed.

Lemma dumps_head (v : json) (rest : string) :
  exists c t,
    json_dumps v ++ rest = String c t /\
    match v with
    | JInt _ | JFloat _ => is_num_start c = true
    | JStr _ => c = dquote
    | JObj _ => c = "{"%char
    end.
Proof.
  destruct v as [z|f|s|items].
  - destruct (str_of_int_shape z) as (c & t & E & Hc & _).
    exists c, (t ++ rest). cbn [json_dumps]. now rewrite E.
  - pose proof (float_repr_start f) as Hs. cbn [json_dumps].
    destruct (float_repr f) as [|c t]; [contradiction|].
    exists c, (t ++ rest). auto.
  - exists dquote, ((escape_str s ++ String dquote "") ++ rest). auto.
  - rewrite json_dumps_obj. eexists _, _. split; reflexivity.
Qed.

Lemma parse_value_dumps (v : json) : reads_back v.
Proof.
  induction v as [z|f|s|items IH] using json_induction;
    intros Hwf lenient fuel rest Hfuel Hrest;
    (destruct fuel as [|fl]; [cbn in Hfuel; lia|]).
  - destruct (dumps_head (JInt z) rest) as (c & t & E & Hc).
    destruct (num_start_dispatch c Hc) as (Hws & H34 & H123).
    rewrite E, (parse_value_step _ _ _ _ Hws), H34, H123, Hc, <- E.
    now apply parse_number_int.
  - destruct (dumps_head (JFloat f) rest) as (c & t & E & Hc).
    destruct (num_start_dispatch c Hc) as (Hws & H34 & H123).
    rewrite E, (parse_value_step _ _ _ _ Hws), H34, H123, Hc, <- E.
    now apply parse_number_float.
  - cbn [json_dumps]. unfold encode_str. cbn [String.append].
    rewrite str_app_assoc. cbn [String.append].
    rewrite (parse_value_step _ _ dquote _ eq_refl).
    change (N_of_ascii dquote =? 34)%N with true. cbv iota.
    now rewrite scan_escape_str.
  - apply wf_json_obj in Hwf. destruct Hwf as [Hnd Hall].
    rewrite need_obj in Hfuel. rewrite json_dumps_obj.
    cbn [String.append]. rewrite str_app_assoc. cbn [String.append].
    rewrite (parse_value_step _ _ "{"%char _ eq_refl).
    change (N_of_ascii "{" =? 34)%N with false.
    change (N_of_ascii "{" =? 123)%N with true. cbv iota.
    destruct items as [|[k x] l].
    + cbn [dumps_items String.append].
      now rewrite (ws_head lenient "}"%char rest eq_refl).
    + rewrite dumps_items_cons, (ws_head lenient dquote _ eq_refl).
      change (N_of_ascii dquote =? 125)%N with false. cbv iota.
      rewrite <- dumps_items_cons.
      apply (parse_members_dumps ((k, x) :: l)); try assumption;
        try discriminate; lia.
Qed.

End ValueRoundTrip.

(** ** Lines through the encoder and the decoder *)

Section LineRoundTrip.

Context `{FM : FloatModel}.

Lemma dumps_items_length (l : list (string * json)) :
  Forall (fun kx => (need (snd kx) <= String.length (json_dumps (snd kx)))%nat)
    l ->
  (need_items l <= String.length (dumps_items l))%nat.
Proof.
  induction 1 as [|[k x] l Hx Hl IH]; cbn [need_items dumps_items snd] in *;
    [lia|].
  unfold encode_str. cbn [String.append String.length].
  rewrite !str_length_app. cbn [String.length]. rewrite !str_length_app.
  destruct l as [|i l'].
  - change (need_items []) with 0%nat. cbn [String.length]. lia.
  - cbn [String.length]. lia.
Qed.

Lemma need_le_length (v : json) :
  (need v <= String.length (json_dumps v))%nat.
Proof.
  induction v as [z|f|s|items IH] using json_induction.
  - destruct (str_of_int_shape z) as (c & t & E & _).
    cbn [json_dumps need]. rewrite E. simpl. lia.
  - pose proof (float_repr_start f) as Hs. cbn [json_dumps need].
    destruct (float_repr f); [contradiction|]. simpl. lia.
  - simpl. lia.
  - rewrite need_obj, json_dumps_obj. cbn [String.append String.length].
    rewrite str_length_app. pose proof (dumps_items_length items IH). lia.
Qed.

Lemma dumps_items_printable (l : list (string * json)) :
  Forall (fun kx => str_forall printable (json_dumps (snd kx)) = true) l ->
  str_forall printable (dumps_items l) = true.
Proof.
  induction 1 as [|[k x] l Hx Hl IH]; cbn [dumps_items snd] in *;
    [reflexivity|].
  rewrite !str_forall_app, encode_str_printable, Hx.
  destruct l; [reflexivity|]. cbn [String.append str_forall].
  now rewrite IH.
Qed.

Lemma json_dumps_printable (v : json) :
  str_forall printable (json_dumps v) = true.
Proof.
  induction v as [z|f|s|items IH] using json_induction.
  - apply (str_forall_impl is_num_char); [apply is_num_char_printable|].
    apply str_of_int_num_chars.
  - apply (str_forall_impl is_num_char); [apply is_num_char_printable|].
    apply float_repr_chars.
  - apply encode_str_printable.
  - rewrite json_dumps_obj. cbn [String.append str_forall].
    now rewrite str_forall_app, (dumps_items_printable items IH).
Qed.

(** What is written for a value reads back as that value, by the decoder
    that accepts no white space and by the one that skips it. *)
Lemma json_loads_dumps (lenient : bool) (v : json) :
  wf_json v -> json_loads lenient (json_dumps v) = Some v.
Proof.
  intros Hwf. unfold json_loads.
  pose proof (parse_value_dumps v Hwf lenient
                (S (String.length (json_dumps v))) "") as Hp.
  assert (Happ : forall s : string, s ++ "" = s)
    by (induction s as [|c s IH]; simpl; [reflexivity | now rewrite IH]).
  rewrite Happ in Hp. rewrite Hp.
  - now destruct lenient.
  - pose proof (need_le_length v). lia.
  - reflexivity.
Qed.

Lemma json_loads_line (v : json) :
  wf_json v -> json_loads true (json_dumps v ++ newline) = Some v.
Proof.
  intros Hwf. unfold json_loads.
  rewrite (parse_value_dumps v Hwf true _ newline).
  - reflexivity.
  - rewrite str_length_app. pose proof (need_le_length v). lia.
  - reflexivity.
Qed.

End LineRoundTrip.

(** ** The lines the program writes *)

Section EmittedLines.

Context `{RT : Runtime}.
Variable hostname : string.
Variable pid : Z.

Ltac distinct_keys :=
  repeat (constructor;
          [ simpl; intros Hin;
            repeat (destruct Hin as [Hin|Hin]; [discriminate Hin|]);
            exact Hin | ]);
  constructor.

Lemma wf_banner (t : Z) (m : string) :
  wf_json (JObj [ ("level", JInt 30); ("time", JInt t); ("pid", JInt pid);
                  ("hostname", JStr hostname); ("msg", JStr m) ]).
Proof. simpl. repeat split. distinct_keys. Qed.

Lemma wf_iteration (AUTH_ROUTES : list (string * string * Z)) (s1 s2 : state)
    (p : record * record) :
  iteration hostname pid AUTH_ROUTES s1 = Some (p, s2) ->
  wf_json (JObj (fst p)) /\ wf_json (JObj (snd p)).
Proof.
  intros Hit. destruct (iteration_inv _ _ _ _ _ _ Hit)
    as (m & u & s & port & t0 & g & _ & _ & Hinc & Hdone & _ & _).
  rewrite mk_request_completed_eq in Hdone. rewrite Hinc, Hdone.
  split; simpl; repeat split; distinct_keys.
Qed.

Lemma lines_of_records (trace : list (record * record)) :
  lines_of trace = map line_of (records_of trace).
Proof.
  unfold lines_of, records_of.
  induction trace as [|p tr IH]; simpl; [reflexivity | now rewrite IH].
Qed.

Lemma wf_records_of (AUTH_ROUTES : list (string * string * Z))
    (trace : list (record * record)) :
  Forall (fun p => exists s1 s2,
            iteration hostname pid AUTH_ROUTES s1 = Some (p, s2)) trace ->
  Forall (fun r => wf_json (JObj r)) (records_of trace).
Proof.
  unfold records_of. induction 1 as [|p l (s2 & s3 & Hit) _ IH];
    cbn [flat_map app]; [constructor|].
  destruct (wf_iteration _ _ _ _ Hit) as [Hinc Hdone].
  constructor; [exact Hinc|]. constructor; [exact Hdone | exact IH].
Qed.

Lemma printable_not_lf (s : string) :
  str_forall printable s = true ->
  str_forall (fun c => negb (N_of_ascii c =? 10)%N) s = true.
Proof.
  apply str_forall_impl. intros c. unfold printable.
  rewrite andb_true_iff, N.leb_le, negb_true_iff, N.eqb_neq. lia.
Qed.

(** C9.  Whatever the number of turns, every string the program has added
    to the file is the text [json.dumps] gives for one record followed by
    one line feed, the character of code 10.  That text is printable
    ASCII and holds no line feed, so the line feed that ends the line is
    the only one in it; the decoder that accepts no white space between
    tokens reads it, so it is compact; and read back, with or without its
    line feed, it gives the record again. *)
Theorem emitted_lines_round_trip (n : nat) (g : world) (fh0 : list string) :
  exists AUTH_ROUTES banners trace st,
    program hostname pid n g fh0 = Some (AUTH_ROUTES, banners, trace, st) /\
    fh st =
      (fh0 ++ map (fun r => (json_dumps (JObj r) ++ String "010"%char "")%string)
                (banners ++ records_of trace))%list /\
    Forall (fun r =>
              str_forall printable (json_dumps (JObj r)) = true /\
              str_forall (fun c => negb (N_of_ascii c =? 10)%N)
                (json_dumps (JObj r)) = true /\
              json_loads false (json_dumps (JObj r)) = Some (JObj r) /\
              json_loads true (json_dumps (JObj r)) = Some (JObj r) /\
              json_loads true (json_dumps (JObj r) ++ String "010"%char "")
                = Some (JObj r))
      (banners ++ records_of trace).
Proof.
  assert (Hrt : forall r, wf_json (JObj r) ->
            str_forall printable (json_dumps (JObj r)) = true /\
            str_forall (fun c => negb (N_of_ascii c =? 10)%N)
              (json_dumps (JObj r)) = true /\
            json_loads false (json_dumps (JObj r)) = Some (JObj r) /\
            json_loads true (json_dumps (JObj r)) = Some (JObj r) /\
            json_loads true (json_dumps (JObj r) ++ String "010"%char "")
              = Some (JObj r)).
  { intros r Hwf.
    split; [apply json_dumps_printable|].
    split; [apply printable_not_lf, json_dumps_printable|].
    split; [now apply json_loads_dumps|].
    split; [now apply json_loads_dumps|].
    now apply (json_loads_line (JObj r)). }
  destruct (program_runs hostname pid n g fh0)
    as (s0 & t & trace & st & st0 & _ & Hprog & _ & Hfh0 & Hst).
  destruct (steady_inv _ _ _ _ _ _ _ Hst) as (_ & Hfh & Hall).
  exists (auth_catalog s0), (banners_at hostname pid t), trace, st.
  split; [exact Hprog|].
  split.
  { rewrite Hfh, Hfh0, lines_of_records, <- app_assoc, <- map_app.
    reflexivity. }
  apply Forall_app. split.
  - unfold banners_at, host_msgs. cbn [map].
    repeat (constructor; [apply Hrt, wf_banner|]). constructor.
  - eapply Forall_impl; [|exact (wf_records_of _ _ Hall)]. exact Hrt.
Qed.

End EmittedLines.

(** ** Runs on the small runtime *)

(** The two lines of the first turn read back, by either decoder, as
    values that are written the same way again. *)
Example demo_lines_read_back :
  match iteration "host" 4242 demo_auth demo_state with
  | Some ((inc, done), _) =>
      [ option_map json_dumps (json_loads true (line_of inc));
        option_map json_dumps (json_loads false (json_dumps (JObj inc)));
        option_map json_dumps (json_loads true (line_of done));
        option_map json_dumps (json_loads false (json_dumps (JObj done))) ]
      = [ Some (json_dumps (JObj inc)); Some (json_dumps (JObj inc));
          Some (json_dumps (JObj done)); Some (json_dumps (JObj done)) ]
  | None => False
  end.
Proof. vm_compute. reflexivity. Qed.

(** A line with a space after a colon is read by the lenient decoder
    only. *)
Example demo_space_after_colon :
  let s := String "{" (encode_str "a" ++ ": 1}") in
  option_map json_dumps (json_loads true s) = Some (String "{" (encode_str "a" ++ ":1}")) /\
  option_map json_dumps (json_loads false s) = None.
Proof. vm_compute. split; reflexivity. Qed.

Example demo_resolver_single :
  detect_log_file None (Some [file_entry "x.log" 5]) = "/logs/x.log".
Proof. reflexivity. Qed.

Example demo_resolver_override :
  detect_log_file (Some "/tmp/out.jsonl") None = "/tmp/out.jsonl".
Proof. reflexivity. Qed.

Example demo_resolver_stat_raises :
  detect_log_file None
    (Some [file_entry "a.log" 1;
           {| d_name := "b.log"; d_is_file := Some true; d_mtime := None |}])
  = default_log_file.
Proof. reflexivity. Qed.

(** * Further properties of a run *)

Section RunProperties.

Context `{RT : Runtime}.
Variable hostname : string.
Variable pid : Z.

Lemma steady_counter (AUTH_ROUTES : list (string * string * Z)) (n : nat)
    (st st' : state) (trace : list (record * record)) :
  steady hostname pid AUTH_ROUTES n st = Some (trace, st') ->
  reqid_iter st' = reqid_iter st + Z.of_nat n.
Proof.
  revert st st' trace. induction n as [|n IH]; intros st st' trace.
  - simpl. intros [= _ <-]. lia.
  - cbn [steady].
    destruct (iteration hostname pid AUTH_ROUTES st) as [[p st1]|] eqn:Eit;
      [|discriminate].
    destruct (steady hostname pid AUTH_ROUTES n st1) as [[ps st2]|] eqn:Est;
      [|discriminate].
    intros [= _ <-].
    destruct (iteration_inv _ _ _ _ _ _ Eit)
      as (_ & _ & _ & _ & _ & _ & _ & _ & _ & _ & Hnext & _).
    rewrite (IH _ _ _ Est), Hnext. lia.
Qed.

Lemma lines_of_length (trace : list (record * record)) :
  List.length (lines_of trace) = (2 * List.length trace)%nat.
Proof.
  unfold lines_of. induction trace as [|p tr IH]; simpl; [reflexivity|].
  rewrite IH. lia.
Qed.

(** X1.  A run of [n] turns only appends: what the file held is still its
    beginning, exactly [3 + 2 n] lines have been added, and the identifier
    generator has advanced exactly [n] times. *)
Theorem run_appends (n : nat) (g : world) (fh0 : list string) :
  exists AUTH_ROUTES banners trace st,
    program hostname pid n g fh0 = Some (AUTH_ROUTES, banners, trace, st) /\
    firstn (List.length fh0) (fh st) = fh0 /\
    List.length (fh st) = (List.length fh0 + 3 + 2 * n)%nat /\
    reqid_iter st = 1 + Z.of_nat n.
Proof.
  destruct (program_runs hostname pid n g fh0)
    as (s0 & t & trace & st & st0 & _ & Hprog & Hi & Hfh0 & Hst).
  destruct (steady_inv _ _ _ _ _ _ _ Hst) as (Hlen & Hfh & _).
  exists (auth_catalog s0), (banners_at hostname pid t), trace, st.
  split; [exact Hprog|]. rewrite Hfh, Hfh0, <- app_assoc. split; [|split].
  - rewrite firstn_app, Nat.sub_diag, firstn_all. simpl. apply app_nil_r.
  - rewrite !length_app, lines_of_length, Hlen. simpl. lia.
  - rewrite (steady_counter _ _ _ _ _ Hst), Hi. reflexivity.
Qed.

(** The two records of a turn, written out. *)
Lemma iteration_records (AUTH_ROUTES : list (string * string * Z))
    (s1 s2 : state) (p : record * record) :
  iteration hostname pid AUTH_ROUTES s1 = Some (p, s2) ->
  exists method url status remote_port t0 g,
    (method = "GET" /\ In (url, status) ROUTES \/
     In (method, url, status) AUTH_ROUTES) /\
    53000 <= remote_port <= 53350 /\
    fst p =
      [ ("level", JInt 30);
        ("time", JInt t0);
        ("pid", JInt pid);
        ("hostname", JStr hostname);
        ("reqId", JStr (req_id (reqid_iter s1)));
        ("req", JObj [ ("method", JStr method);
                       ("url", JStr url);
                       ("host", JStr "localhost:3000");
                       ("remoteAddress", JStr "::1");
                       ("remotePort", JInt remote_port) ]);
        ("msg", JStr "incoming request") ] /\
    snd p =
      [ ("level", JInt 30);
        ("time", JInt (t0 + py_int (float_val (elapsed status g))));
        ("pid", JInt pid);
        ("hostname", JStr hostname);
        ("reqId", JStr (req_id (reqid_iter s1)));
        ("res", JObj [ ("statusCode", JInt status) ]);
        ("responseTime", JFloat (elapsed status g));
        ("msg", JStr "request completed") ].
Proof.
  intros Hit. destruct (iteration_inv _ _ _ _ _ _ Hit)
    as (m & u & s & port & t0 & g & Hsel & Hport & Hinc & Hdone & _ & _).
  rewrite mk_request_completed_eq in Hdone.
  exists m, u, s, port, t0, g. auto.
Qed.

(** What holds of every turn holds of every pair of a run. *)
Lemma program_pairs (P : list (string * string * Z) -> record * record -> Prop) :
  (forall login_status s1 s2 p,
     login_status = 200 \/ login_status = 406 ->
     iteration hostname pid (auth_catalog login_status) s1 = Some (p, s2) ->
     P (auth_catalog login_status) p) ->
  forall n g fh0,
  exists AUTH_ROUTES banners trace st,
    program hostname pid n g fh0 = Some (AUTH_ROUTES, banners, trace, st) /\
    Forall (P AUTH_ROUTES) trace.
Proof.
  intros HP n g fh0.
  destruct (program_runs hostname pid n g fh0)
    as (s0 & t & trace & st & st0 & Hs0 & Hprog & _ & _ & Hst).
  destruct (steady_inv _ _ _ _ _ _ _ Hst) as (_ & _ & Hall).
  exists (auth_catalog s0), (banners_at hostname pid t), trace, st.
  split; [exact Hprog|].
  eapply Forall_impl; [|exact Hall]. intros p (s1 & s2 & Hit).
  eapply HP; eassumption.
Qed.

(** X3.  Every record of a run has one of three shapes.  A banner has the
    keys level, time, pid, hostname, msg and one of the three start-up
    messages; an incoming record has reqId and req before msg, which is
    "incoming request"; a completed record has reqId, res and responseTime
    before msg, which is "request completed".  All carry level 30 and the
    pid and hostname of the process. *)
Theorem record_shapes (n : nat) (g : world) (fh0 : list string) :
  exists AUTH_ROUTES banners trace st,
    program hostname pid n g fh0 = Some (AUTH_ROUTES, banners, trace, st) /\
    Forall (fun b =>
              keys b = ["level"; "time"; "pid"; "hostname"; "msg"] /\
              common_fields hostname pid b /\
              exists m, get_str "msg" b = Some m /\ In m host_msgs) banners /\
    Forall (fun p =>
              keys (fst p) =
                ["level"; "time"; "pid"; "hostname"; "reqId"; "req"; "msg"] /\
              common_fields hostname pid (fst p) /\
              get_str "msg" (fst p) = Some "incoming request" /\
              keys (snd p) =
                ["level"; "time"; "pid"; "hostname"; "reqId"; "res";
                 "responseTime"; "msg"] /\
              common_fields hostname pid (snd p) /\
              get_str "msg" (snd p) = Some "request completed") trace.
Proof.
  destruct (program_runs hostname pid n g fh0)
    as (s0 & t & trace & st & st0 & Hs0 & Hprog & _ & _ & Hst).
  destruct (steady_inv _ _ _ _ _ _ _ Hst) as (_ & _ & Hall).
  exists (auth_catalog s0), (banners_at hostname pid t), trace, st.
  split; [exact Hprog|]. split.
  - unfold banners_at. apply Forall_map, Forall_forall. intros m Hm.
    repeat split. exists m. split; [reflexivity | exact Hm].
  - eapply Forall_impl; [|exact Hall]. intros p (s1 & s2 & Hit).
    destruct (iteration_records _ _ _ _ Hit)
      as (m & u & s & port & t0 & g' & _ & _ & -> & ->).
    repeat split.
Qed.

(** X4.  The request descriptor of every incoming record has the keys
    method, url, host, remoteAddress, remotePort; its host is
    localhost:3000, its remote address ::1 and its remote port lies
    between 53000 and 53350. *)
Theorem remote_endpoint (n : nat) (g : world) (fh0 : list string) :
  exists AUTH_ROUTES banners trace st,
    program hostname pid n g fh0 = Some (AUTH_ROUTES, banners, trace, st) /\
    Forall (fun p => exists d port,
              get_obj "req" (fst p) = Some d /\
              keys d =
                ["method"; "url"; "host"; "remoteAddress"; "remotePort"] /\
              get_str "host" d = Some "localhost:3000" /\
              get_str "remoteAddress" d = Some "::1" /\
              get_int "remotePort" d = Some port /\
              53000 <= port <= 53350) trace.
Proof.
  apply (program_pairs (fun _ p => exists d port,
              get_obj "req" (fst p) = Some d /\
              keys d =
                ["method"; "url"; "host"; "remoteAddress"; "remotePort"] /\
              get_str "host" d = Some "localhost:3000" /\
              get_str "remoteAddress" d = Some "::1" /\
              get_int "remotePort" d = Some port /\
              53000 <= port <= 53350)).
  intros s0 s1 s2 p _ Hit.
  destruct (iteration_records _ _ _ _ Hit)
    as (m & u & s & port & t0 & g' & _ & Hport & -> & _).
  eexists _, port. repeat split; try reflexivity; lia.
Qed.

Lemma ROUTES_status (url : string) (status : Z) :
  In (url, status) ROUTES -> status = 200 \/ status = 404.
Proof.
  assert (HR : forallb (fun e => (snd e =? 200) || (snd e =? 404)) ROUTES
               = true) by reflexivity.
  rewrite forallb_forall in HR. intros Hin. specialize (HR _ Hin).
  cbn [snd] in HR. apply orb_true_iff in HR. rewrite !Z.eqb_eq in HR.
  exact HR.
Qed.

(** X5.  The status of a completed record is the one the catalog gives for
    the request that came in: the method is GET and the url and status are
    an entry of the general catalog, or the method, url and status are an
    entry of the authentication catalog, whose method is POST.  So the
    method is GET or POST and the status is 200, 401, 404 or 406. *)
Theorem route_consistent (n : nat) (g : world) (fh0 : list string) :
  exists AUTH_ROUTES banners trace st,
    program hostname pid n g fh0 = Some (AUTH_ROUTES, banners, trace, st) /\
    Forall (fun p => exists method url status,
              req_method (fst p) = Some method /\
              req_url (fst p) = Some url /\
              res_status (snd p) = Some status /\
              (method = "GET" /\ In (url, status) ROUTES \/
               method = "POST" /\ In (method, url, status) AUTH_ROUTES) /\
              (status = 200 \/ status = 401 \/ status = 404 \/
               status = 406)) trace.
Proof.
  apply (program_pairs (fun A p => exists method url status,
              req_method (fst p) = Some method /\
              req_url (fst p) = Some url /\
              res_status (snd p) = Some status /\
              (method = "GET" /\ In (url, status) ROUTES \/
               method = "POST" /\ In (method, url, status) A) /\
              (status = 200 \/ status = 401 \/ status = 404 \/
               status = 406))).
  intros s0 s1 s2 p Hs0 Hit.
  destruct (iteration_records _ _ _ _ Hit)
    as (m & u & s & port & t0 & g' & Hsel & _ & -> & ->).
  exists m, u, s. split; [reflexivity|]. split; [reflexivity|].
  split; [reflexivity|].
  destruct Hsel as [[-> Hin]|Hin].
  - split; [left; auto|]. destruct (ROUTES_status _ _ Hin); auto.
  - assert (Hm : m = "POST" /\ (s = 401 \/ s = s0 \/ s = 200)).
    { simpl in Hin. destruct Hin as [E|[E|[E|[]]]];
        injection E as <- <- <-; auto. }
    destruct Hm as [-> Hs]. split; [right; auto|].
    destruct Hs as [-> | [-> | ->]]; auto. destruct Hs0 as [-> | ->]; auto.
Qed.

Lemma py_int_mono (x y : Q) :
  (0 <= x)%Q -> (x <= y)%Q -> py_int x <= py_int y.
Proof.
  intros Hx Hxy. rewrite !py_int_floor.
  - now apply Qfloor_resp_le.
  - eapply Qle_trans; eassumption.
  - exact Hx.
Qed.

Lemma elapsed_upper (status : Z) (g : world) :
  (float_val (elapsed status g) <= float_val (float_lit 300))%Q /\
  (status = 200 ->
   (float_val (elapsed status g) <= float_val (float_lit 40))%Q).
Proof.
  unfold elapsed. destruct (Z.eqb_spec status 200) as [Hs|Hs].
  - assert (H40 : (float_val (fst (random_uniform (float_lit (8 # 10))
                                     (float_lit 40) g))
                   <= float_val (float_lit 40))%Q)
      by (apply random_uniform_range, lit_08_le; unfold Qle; simpl; lia).
    split; [|intros _; exact H40].
    eapply Qle_trans; [exact H40|].
    apply float_lit_mono. unfold Qle; simpl; lia.
  - split; [|contradiction].
    apply random_uniform_range, lit_08_le. unfold Qle; simpl; lia.
Qed.

(** X6.  The time of a completed record is never before the time of its
    incoming record and at most [int(300.0)] after it; at most [int(40.0)]
    when the status is 200. *)
Theorem completion_delay_bounded (n : nat) (g : world) (fh0 : list string) :
  exists AUTH_ROUTES banners trace st,
    program hostname pid n g fh0 = Some (AUTH_ROUTES, banners, trace, st) /\
    Forall (fun p => exists t0 t1 status,
              get_int "time" (fst p) = Some t0 /\
              get_int "time" (snd p) = Some t1 /\
              res_status (snd p) = Some status /\
              t0 <= t1 <= t0 + py_int (float_val (float_lit 300)) /\
              (status = 200 ->
               t1 <= t0 + py_int (float_val (float_lit 40)))) trace.
Proof.
  apply (program_pairs (fun _ p => exists t0 t1 status,
              get_int "time" (fst p) = Some t0 /\
              get_int "time" (snd p) = Some t1 /\
              res_status (snd p) = Some status /\
              t0 <= t1 <= t0 + py_int (float_val (float_lit 300)) /\
              (status = 200 ->
               t1 <= t0 + py_int (float_val (float_lit 40))))).
  intros s0 s1 s2 p _ Hit.
  destruct (iteration_records _ _ _ _ Hit)
    as (m & u & s & port & t0 & g' & _ & _ & -> & ->).
  exists t0, (t0 + py_int (float_val (elapsed s g'))), s.
  split; [reflexivity|]. split; [reflexivity|]. split; [reflexivity|].
  pose proof (elapsed_nonneg s g') as H0.
  destruct (elapsed_upper s g') as [H300 H40].
  pose proof (py_int_nonneg _ H0).
  pose proof (py_int_mono _ _ H0 H300). split; [lia|].
  intros Hs. pose proof (py_int_mono _ _ H0 (H40 Hs)). lia.
Qed.

(** X7.  The request identifiers of a run are pairwise distinct: an
    identifier names one request/response pair only. *)
Theorem run_reqids_distinct (n : nat) (g : world) (fh0 : list string) :
  exists AUTH_ROUTES banners trace st,
    program hostname pid n g fh0 = Some (AUTH_ROUTES, banners, trace, st) /\
    NoDup (map (fun p => get_str "reqId" (fst p)) trace) /\
    Forall (fun p => get_str "reqId" (snd p) = get_str "reqId" (fst p)) trace.
Proof.
  destruct (program_runs hostname pid n g fh0)
    as (s0 & t & trace & st & st0 & _ & Hprog & Hi & _ & Hst).
  exists (auth_catalog s0), (banners_at hostname pid t), trace, st.
  split; [exact Hprog|]. split.
  - rewrite (steady_reqids _ _ _ _ _ _ _ Hst), Hi.
    assert (Hnd : forall a k, (1 <= a)%nat ->
              NoDup (map (fun j => Some (req_id (1 + Z.of_nat j)))
                       (seq (a - 1) k))).
    { intros a k _. generalize (a - 1)%nat. clear. intros b. revert b.
      induction k as [|k IH]; intros b; cbn [seq map]; constructor;
        [|apply IH].
      rewrite in_map_iff. intros (j & E & Hj). apply in_seq in Hj.
      assert (E' : req_id (1 + Z.of_nat j) = req_id (1 + Z.of_nat b))
        by congruence.
      apply req_id_inj in E'; lia. }
    apply (Hnd 1%nat n). lia.
  - destruct (steady_inv _ _ _ _ _ _ _ Hst) as (_ & _ & Hall).
    eapply Forall_impl; [|exact Hall]. intros p (s1 & s2 & Hit).
    destruct (iteration_has_reqId _ _ _ _ _ _ Hit) as [-> ->]. reflexivity.
Qed.

End RunProperties.

(** * Further properties of the identifiers *)

Lemma str_of_int_digits (z : Z) :
  0 <= z -> str_forall is_digit (str_of_int z) = true.
Proof.
  intros Hz. unfold str_of_int. destruct z as [|p|p]; try lia; simpl.
  - reflexivity.
  - apply uint_digits.
Qed.

Lemma is_digit_lower_alnum (c : ascii) :
  is_digit c = true -> is_lower_alnum c = true.
Proof. unfold is_digit, is_lower_alnum. now intros ->. Qed.

(** X8.  Every identifier the generator yields is req- followed by at
    least one character, all of them digits or lower-case letters. *)
Theorem req_id_shape (n : Z) :
  1 <= n ->
  exists s, req_id n = "req-" ++ s /\ s <> "" /\
            str_forall is_lower_alnum s = true.
Proof.
  intros Hn. destruct (Z.le_gt_cases n 36) as [H36|H36].
  - pose proof (forallb_first36
      (fun k => match req_id k with
                | String _ (String _ (String _ (String _ (String c t)))) =>
                    String.eqb (req_id k) ("req-" ++ String c t)
                    && str_forall is_lower_alnum (String c t)
                | _ => false
                end) n ltac:(vm_compute; reflexivity) ltac:(lia)) as H.
    cbv beta in H.
    destruct (req_id n) as [|c1 [|c2 [|c3 [|c4 [|c t]]]]]; try discriminate.
    apply andb_true_iff in H. destruct H as [E Hs].
    apply String.eqb_eq in E. exists (String c t).
    split; [exact E|]. split; [discriminate | exact Hs].
  - exists (str_of_int n). split; [apply req_id_late; lia|].
    pose proof (str_of_int_digits n ltac:(lia)) as Hd. split.
    + destruct (str_of_int_shape n) as (c & t & -> & _). discriminate.
    + apply (str_forall_impl is_digit);
        [apply is_digit_lower_alnum | exact Hd].
Qed.

Lemma req_id_shape_witness :
  1 <= 1000 /\
  exists s, req_id 1000 = "req-" ++ s /\ s <> "" /\
            str_forall is_lower_alnum s = true.
Proof. split; [lia|]. apply (req_id_shape 1000). lia. Defined.

(** * Further properties of the target resolver *)

Lemma keyed_sound (l : list dirent) (ks : list (Q * dirent)) :
  keyed l = Some ks ->
  map snd ks = l /\ forall t p, In (t, p) ks -> d_mtime p = Some t.
Proof.
  revert ks. induction l as [|q l IH]; intros ks; simpl.
  - intros [= <-]. split; [reflexivity | intros t p []].
  - destruct (d_mtime q) as [tq|] eqn:E; [|discriminate].
    destruct (keyed l) as [r|]; [|discriminate].
    intros [= <-]. destruct (IH r eq_refl) as [Hmap Hin]. split.
    + simpl. now rewrite Hmap.
    + intros t p [[= <- <-]|Hp]; [exact E | now apply Hin].
Qed.

(** The head of the sorted list is the first of the greatest keys. *)
Lemma sort_desc_first_max (ks : list (Q * dirent)) (x : Q * dirent)
    (r : list (Q * dirent)) :
  sort_desc ks = x :: r ->
  exists k1 k2,
    ks = (k1 ++ x :: k2)%list /\
    (forall z, In z k1 -> (fst z < fst x)%Q) /\
    (forall z, In z k2 -> (fst z <= fst x)%Q).
Proof.
  revert x r. induction ks as [|y ks IH]; intros x r; simpl;
    [discriminate|].
  destruct (sort_desc ks) as [|h tl] eqn:Es.
  - simpl. intros [= <- _].
    assert (ks = []).
    { destruct ks as [|k ks']; [reflexivity|].
      assert (Hk : In k (sort_desc (k :: ks')))
        by (apply sort_desc_in; now left).
      rewrite Es in Hk. destruct Hk. }
    subst ks. exists [], []. repeat split; intros z [].
  - destruct (IH h tl eq_refl) as (k1 & k2 & -> & H1 & H2).
    simpl. destruct (Qlt_bool (fst y) (fst h)) eqn:E.
    + intros [= <- _]. apply Qlt_bool_iff in E.
      exists (y :: k1), k2. repeat split; [|exact H2].
      intros z [<-|Hz]; [exact E | now apply H1].
    + intros [= <- _].
      assert (Hhy : (fst h <= fst y)%Q).
      { apply Qnot_lt_le. intros Hlt. apply Qlt_bool_iff in Hlt.
        congruence. }
      exists [], (k1 ++ h :: k2)%list. repeat split; [intros z []|].
      intros z Hz. apply in_app_or in Hz.
      destruct Hz as [Hz|[<-|Hz]].
      * eapply Qle_trans; [apply Qlt_le_weak, H1, Hz | exact Hhy].
      * exact Hhy.
      * eapply Qle_trans; [apply H2, Hz | exact Hhy].
Qed.

(** X9.  What the resolver returns is the override, the default path, or
    the path of a listed entry that is a file: never a directory and never
    a path that was not listed. *)
Theorem detect_log_file_origin (env : option string)
    (glob : option (list dirent)) :
  (exists c e, env = Some (String c e) /\
               detect_log_file env glob = String c e) \/
  detect_log_file env glob = default_log_file \/
  (exists paths p,
     glob = Some paths /\ In p paths /\ d_is_file p = Some true /\
     detect_log_file env glob = path_str p).
Proof.
  assert (Hscan : forall path, scan_logs_dir glob = Some path ->
            exists paths p,
              glob = Some paths /\ In p paths /\ d_is_file p = Some true /\
              path = path_str p).
  { intros path. unfold scan_logs_dir. destruct glob as [paths|];
      [|discriminate].
    destruct (match paths with [p] => d_is_file p | _ => Some false end)
      as [[|]|] eqn:Hs; [| |discriminate].
    - destruct paths as [|p [|q l]]; try discriminate.
      intros [= <-]. exists [p], p. repeat split; [now left | exact Hs].
    - destruct (jsonish_of paths) as [js|] eqn:Ej; [|discriminate].
      apply jsonish_of_candidates in Ej. subst js.
      destruct (candidates paths) as [|c0 cs] eqn:Ec; [discriminate|].
      destruct (keyed (c0 :: cs)) as [ks|] eqn:Ek; [|discriminate].
      destruct (sort_desc ks) as [|[t p] r] eqn:Es; [discriminate|].
      intros [= <-].
      assert (Hp : In (t, p) ks) by (apply sort_desc_in; rewrite Es; now left).
      destruct (keyed_sound _ _ Ek) as [Hmap _].
      assert (Hc : In p (candidates paths)).
      { rewrite Ec, <- Hmap. apply (in_map snd _ _ Hp). }
      unfold candidates in Hc. apply filter_In in Hc.
      destruct Hc as [Hin Hcand]. exists paths, p.
      repeat split; try assumption.
      unfold is_candidate in Hcand.
      destruct (d_is_file p) as [[|]|]; congruence. }
  unfold detect_log_file. destruct env as [[|c e]|].
  - destruct (scan_logs_dir glob) as [path|] eqn:E; [|auto].
    right; right. destruct (Hscan path eq_refl) as (ps & p & H1 & H2 & H3 & ->).
    eauto 8.
  - left. eauto.
  - destruct (scan_logs_dir glob) as [path|] eqn:E; [|auto].
    right; right. destruct (Hscan path eq_refl) as (ps & p & H1 & H2 & H3 & ->).
    eauto 8.
Qed.

(** X10.  Among candidates modified equally recently the one listed first
    wins: the candidate returned is strictly newer than every candidate
    listed before it and at least as new as every candidate listed after
    it. *)
Theorem detect_log_file_first_newest (paths : list dirent) :
  (forall p, paths = [p] -> d_is_file p = Some false) ->
  (forall p, In p paths -> d_is_file p <> None) ->
  (forall p, In p (candidates paths) -> d_mtime p <> None) ->
  candidates paths <> [] ->
  exists p t before after,
    candidates paths = (before ++ p :: after)%list /\
    d_mtime p = Some t /\
    (forall q t', In q before -> d_mtime q = Some t' -> (t' < t)%Q) /\
    (forall q t', In q after -> d_mtime q = Some t' -> (t' <= t)%Q) /\
    detect_log_file None (Some paths) = path_str p.
Proof.
  intros Hsingle Hfile Hstat Hne. unfold detect_log_file, scan_logs_dir.
  assert (Hs : match paths with [p] => d_is_file p | _ => Some false end
               = Some false).
  { destruct paths as [|p [|q l]]; try reflexivity. now apply Hsingle. }
  rewrite Hs, (jsonish_of_some paths Hfile).
  destruct (candidates paths) as [|c0 cs] eqn:Ec; [congruence|].
  destruct (keyed_some (c0 :: cs) Hstat) as (ks & Hk & Hlen & _).
  rewrite Hk. destruct (keyed_sound _ _ Hk) as [Hmap Hkeys].
  destruct (sort_desc ks) as [|[t p] rest] eqn:Es.
  - destruct ks as [|k ks']; [simpl in Hlen; discriminate|].
    assert (Hk0 : In k (sort_desc (k :: ks'))) by (apply sort_desc_in; now left).
    rewrite Es in Hk0. destruct Hk0.
  - destruct (sort_desc_first_max _ _ _ Es) as (k1 & k2 & -> & H1 & H2).
    exists p, t, (map snd k1), (map snd k2).
    rewrite <- Hmap, map_app. split; [reflexivity|].
    split; [apply Hkeys, in_or_app; right; now left|].
    split; [|split; [|reflexivity]].
    + intros q t' Hq Hqt. apply in_map_iff in Hq.
      destruct Hq as ([t'' q'] & Eq & Hin). simpl in Eq. subst q'.
      assert (d_mtime q = Some t'')
        by (apply Hkeys, in_or_app; now left).
      assert (t'' = t') by congruence. subst t''. apply (H1 _ Hin).
    + intros q t' Hq Hqt. apply in_map_iff in Hq.
      destruct Hq as ([t'' q'] & Eq & Hin). simpl in Eq. subst q'.
      assert (d_mtime q = Some t'')
        by (apply Hkeys, in_or_app; right; now right).
      assert (t'' = t') by congruence. subst t''. apply (H2 _ Hin).
Qed.

Lemma detect_log_file_first_newest_witness :
  let paths := [file_entry "a.log" 5; file_entry "b.log" 5;
                file_entry "c.txt" 9] in
  (forall p, paths = [p] -> d_is_file p = Some false) /\
  (forall p, In p paths -> d_is_file p <> None) /\
  (forall p, In p (candidates paths) -> d_mtime p <> None) /\
  candidates paths <> [] /\
  exists p t before after,
    candidates paths = (before ++ p :: after)%list /\
    d_mtime p = Some t /\
    (forall q t', In q before -> d_mtime q = Some t' -> (t' < t)%Q) /\
    (forall q t', In q after -> d_mtime q = Some t' -> (t' <= t)%Q) /\
    detect_log_file None (Some paths) = path_str p.
Proof.
  intros paths.
  assert (H1 : forall p, paths = [p] -> d_is_file p = Some false)
    by (intros p; discriminate).
  assert (H2 : forall p, In p paths -> d_is_file p <> None)
    by (intros p [<-|[<-|[<-|[]]]]; discriminate).
  assert (H3 : forall p, In p (candidates paths) -> d_mtime p <> None)
    by (intros p [<-|[<-|[]]]; discriminate).
  assert (H4 : candidates paths <> []) by discriminate.
  repeat (split; [assumption|]).
  exact (detect_log_file_first_newest paths H1 H2 H3 H4).
Defined.

Lemma prefix_iff (s1 s2 : string) :
  String.prefix s1 s2 = true <-> exists b, s2 = s1 ++ b.
Proof.
  revert s2. induction s1 as [|c s1 IH]; intros s2.
  - split; [intros _; exists s2; reflexivity
           | intros _; destruct s2; reflexivity].
  - destruct s2 as [|d s2]; simpl.
    + split; [discriminate | intros [b Hb]; discriminate].
    + destruct (ascii_dec c d) as [->|Hcd].
      * rewrite IH. split; intros [b Hb]; exists b; congruence.
      * split; [discriminate | intros [b Hb]; congruence].
Qed.

Lemma contains_iff (sub s : string) :
  contains sub s = true <-> exists a b, s = a ++ sub ++ b.
Proof.
  induction s as [|c s IH].
  - cbn [contains]. rewrite orb_false_r, prefix_iff. split.
    + intros [b Hb]. exists "", b. exact Hb.
    + intros (a & b & Hab). destruct a; [eauto | discriminate].
  - cbn [contains]. rewrite orb_true_iff, prefix_iff, IH. split.
    + intros [[b Hb]|(a & b & Hab)].
      * exists "", b. exact Hb.
      * exists (String c a), b. simpl. now rewrite Hab.
    + intros (a & b & Hab). destruct a as [|c' a].
      * left. exists b. exact Hab.
      * right. exists a, b. simpl in Hab. congruence.
Qed.

Lemma lower_app (a b : string) : lower (a ++ b) = lower a ++ lower b.
Proof. induction a as [|c a IH]; simpl; [reflexivity | now rewrite IH]. Qed.

Lemma lower_split (s x y : string) :
  lower s = x ++ y -> exists a b, s = a ++ b /\ lower a = x /\ lower b = y.
Proof.
  revert s. induction x as [|c x IH]; intros s; simpl.
  - intros Hs. exists "", s. auto.
  - destruct s as [|d s]; simpl; [discriminate|].
    intros [= Hc Hs]. destruct (IH s Hs) as (a & b & -> & Ha & Hb).
    exists (String d a), b. simpl. rewrite Ha, Hc. auto.
Qed.

Lemma contains_lower_iff (w s : string) :
  contains w (lower s) = true <->
  exists a v b, s = a ++ v ++ b /\ lower v = w.
Proof.
  rewrite contains_iff. split.
  - intros (x & y & Hxy).
    destruct (lower_split _ _ _ Hxy) as (a & r & -> & _ & Hr).
    destruct (lower_split _ _ _ Hr) as (v & b & -> & Hv & _).
    exists a, v, b. auto.
  - intros (a & v & b & -> & <-). exists (lower a), (lower b).
    now rewrite !lower_app.
Qed.

(** The candidates in terms of substrings of the name. *)
Lemma is_candidate_iff (p : dirent) :
  is_candidate p = true <->
  d_is_file p = Some true /\
  exists a w b, d_name p = a ++ w ++ b /\
                (lower w = "json" \/ lower w = "log").
Proof.
  unfold is_candidate. destruct (d_is_file p) as [[|]|].
  - rewrite orb_true_iff, !contains_lower_iff. split.
    + intros [(a & v & b & E & Hv)|(a & v & b & E & Hv)];
        (split; [reflexivity|]); exists a, v, b; auto.
    + intros [_ (a & w & b & E & [Hw|Hw])]; [left|right];
        exists a, w, b; auto.
  - split; [discriminate | intros [? _]; discriminate].
  - split; [discriminate | intros [? _]; discriminate].
Qed.

Ltac letter_case c :=
  destruct c as [[] [] [] [] [] [] [] []]; vm_compute; intros E;
  first [ discriminate E | left; reflexivity | right; reflexivity ].

Lemma lower_char_j (c : ascii) :
  lower_char c = "j"%char -> c = "j"%char \/ c = "J"%char.
Proof. letter_case c. Qed.

Lemma lower_char_s (c : ascii) :
  lower_char c = "s"%char -> c = "s"%char \/ c = "S"%char.
Proof. letter_case c. Qed.

Lemma lower_char_o (c : ascii) :
  lower_char c = "o"%char -> c = "o"%char \/ c = "O"%char.
Proof. letter_case c. Qed.

Lemma lower_char_n (c : ascii) :
  lower_char c = "n"%char -> c = "n"%char \/ c = "N"%char.
Proof. letter_case c. Qed.

Lemma lower_char_l (c : ascii) :
  lower_char c = "l"%char -> c = "l"%char \/ c = "L"%char.
Proof. letter_case c. Qed.

Lemma lower_char_g (c : ascii) :
  lower_char c = "g"%char -> c = "g"%char \/ c = "G"%char.
Proof. letter_case c. Qed.

(** X11.  When no [is_file()] raises, the list the scan filters out of the
    listing holds exactly the listed entries that are files and whose name
    has, somewhere, the letters j, s, o, n or the letters l, o, g in a
    row, each in upper or lower case; and the filtering raises exactly
    when [is_file()] raises on some listed entry. *)
Theorem jsonish_of_iff (paths : list dirent) :
  (jsonish_of paths = None <->
   exists p, In p paths /\ d_is_file p = None) /\
  forall js, jsonish_of paths = Some js ->
  forall p,
    In p js <->
    In p paths /\ d_is_file p = Some true /\
    ((exists a b c1 c2 c3 c4,
        d_name p = a ++ String c1 (String c2 (String c3 (String c4 b))) /\
        (c1 = "j" \/ c1 = "J")%char /\ (c2 = "s" \/ c2 = "S")%char /\
        (c3 = "o" \/ c3 = "O")%char /\ (c4 = "n" \/ c4 = "N")%char) \/
     (exists a b c1 c2 c3,
        d_name p = a ++ String c1 (String c2 (String c3 b)) /\
        (c1 = "l" \/ c1 = "L")%char /\ (c2 = "o" \/ c2 = "O")%char /\
        (c3 = "g" \/ c3 = "G")%char)).
Proof.
  split.
  - split.
    + induction paths as [|q ps IH]; simpl; [discriminate|].
      destruct (d_is_file q) as [b|] eqn:E.
      * destruct (jsonish_of ps) as [r|]; [discriminate|].
        intros _. destruct (IH eq_refl) as (p & Hin & Hp). eauto.
      * intros _. exists q. auto.
    + intros (p & Hin & Hp). eapply jsonish_of_none; eassumption.
  - intros js Hjs p. apply jsonish_of_candidates in Hjs. subst js.
    unfold candidates. rewrite filter_In, is_candidate_iff. split.
    + intros (Hin & Hf & a & w & b & E & Hw). repeat split; try assumption.
      destruct Hw as [Hw|Hw].
      * left. destruct w as [|c1 [|c2 [|c3 [|c4 [|c5 w]]]]];
          try discriminate Hw.
        simpl in Hw. injection Hw as H1 H2 H3 H4.
        exists a, b, c1, c2, c3, c4. split; [exact E|].
        auto using lower_char_j, lower_char_s, lower_char_o, lower_char_n.
      * right. destruct w as [|c1 [|c2 [|c3 [|c4 w]]]];
          try discriminate Hw.
        simpl in Hw. injection Hw as H1 H2 H3.
        exists a, b, c1, c2, c3. split; [exact E|].
        auto using lower_char_l, lower_char_o, lower_char_g.
    + intros (Hin & Hf & Hname). repeat split; try assumption.
      destruct Hname as [(a & b & c1 & c2 & c3 & c4 & E & H1 & H2 & H3 & H4)
                        |(a & b & c1 & c2 & c3 & E & H1 & H2 & H3)].
      * exists a, (String c1 (String c2 (String c3 (String c4 "")))), b.
        split; [exact E|]. left.
        destruct H1 as [-> | ->], H2 as [-> | ->], H3 as [-> | ->],
          H4 as [-> | ->]; reflexivity.
      * exists a, (String c1 (String c2 (String c3 ""))), b.
        split; [exact E|]. right.
        destruct H1 as [-> | ->], H2 as [-> | ->], H3 as [-> | ->];
          reflexivity.
Qed.

(** * Further properties of the written lines *)

(** X12.  Two records whose keys are distinct are written as the same line
    only when they are the same record: a line determines its record. *)
Theorem line_of_injective `{FM : FloatModel} (r1 r2 : record) :
  wf_json (JObj r1) -> wf_json (JObj r2) ->
  line_of r1 = line_of r2 -> r1 = r2.
Proof.
  intros H1 H2 E.
  pose proof (json_loads_line (JObj r1) H1) as L1.
  pose proof (json_loads_line (JObj r2) H2) as L2.
  fold (line_of r1) in L1. fold (line_of r2) in L2.
  rewrite E, L2 in L1. congruence.
Qed.

Lemma line_of_injective_witness :
  let r : @record tenths_float :=
    [ ("level", JInt 30); ("msg", JStr "incoming request") ] in
  wf_json (JObj r) /\ wf_json (JObj r) /\ line_of r = line_of r /\ r = r.
Proof.
  intros r.
  assert (Hwf : wf_json (JObj r)).
  { unfold r. cbn [wf_json map fst]. repeat split.
    constructor; [|constructor; [|constructor]].
    - intros [Hin|[]]. discriminate Hin.
    - intros []. }
  repeat (split; [first [exact Hwf | reflexivity]|]).
  exact (line_of_injective r r Hwf Hwf eq_refl).
Defined.

(** A turn that draws from the authentication catalog: the records carry
    the method, url and status of the entry picked. *)
Example demo_auth_turn :
  match iteration "host" 4242 demo_auth
          {| rng := {| Tenths.seed := 8; Tenths.clock := 17000 |};
             reqid_iter := 1; fh := [] |} with
  | Some ((inc, done), _) =>
      (req_method inc, req_url inc, res_status done)
      = (Some "POST", Some "/api/auth/login", Some 406)
  | None => False
  end.
Proof. vm_compute. reflexivity. Qed.

(** Every string a run of one turn leaves in the file ends in a line feed
    and has no other. *)
Example demo_lines_end_in_lf :
  match program "host" 4242 1 Tenths.w0 [] with
  | Some (_, _, _, st) =>
      map (fun l => (String.get (String.length l - 1) l,
                     String.index 0 (String "010"%char "") l))
        (fh st)
      = map (fun l => (Some "010"%char, Some (String.length l - 1)%nat))
          (fh st) /\
      List.length (fh st) = 5%nat
  | None => False
  end.
Proof. vm_compute. split; reflexivity. Qed.

(** Upper-case names are candidates; directories are not. *)
Example demo_jsonish_upper_case :
  option_map (map d_name)
    (jsonish_of [file_entry "APP.LOG" 1; file_entry "a.txt" 2;
                 dir_entry "logs" 3; file_entry "x.Json" 4])
  = Some ["APP.LOG"; "x.Json"].
Proof. reflexivity. Qed.
